(** * Secrets key-value store and data-source secret migration

    A shallow embedding of
    - [pkg/services/secrets/kvstore/kvstore.go]: the backend selector
      [ProvideService], the [SecretsKVStore] interface and the fixed-scope
      view [FixedKVStore];
    - the migration service ([package migration]): [WaitForProvisioning]
      and [Run];
    - the conflicting-users command ([package commands]): [mergeUser],
      [deDupeSameIdentification], the two prompts, [Print] and [Conflict],
      with the functions of [strings] and [strconv] they call.

    Go values are modelled as follows: [int64] and [time.Duration] as [Z],
    [string] as [string], an [error] as [option string] ([None] is [nil]),
    a Go map as a [gmap], a struct as a record, an interface as a type
    class.  A method with a pointer receiver takes the receiver's state
    and returns the new state next to its results.

    The migration service acts on a [World]: a clock, the
    data-source-created events still to be published, the data-source
    table, the secrets store, and the trace of the calls issued.  What
    the collaborators answer is data of the run; code of other packages
    that the sources call is modelled from the specification and says so.

    The file has three parts: the programs, the vocabulary of the
    statements, the statements and their proofs. *)

From Stdlib Require Import ZArith List Lia.
From stdpp Require Import gmap strings list fin_maps.
From Stdlib Require DecimalString DecimalPos.

Open Scope Z_scope.

(** An [error] value: [None] is Go's [nil]. *)
Definition error : Type := option string.

(** [package time]: durations are nanosecond counts. *)
Module time.
Definition Duration : Type := Z.
Definition Nanosecond : Duration := 1.
Definition Second : Duration := 1000000000.
Definition Minute : Duration := 60 * Second.
End time.

(** * package kvstore *)

Module kvstore.

(** Wildcard to query all organizations *)
Definition AllOrganizations : Z := -1.

(** A key descriptor, as returned by [Keys]: organisation, namespace, type. *)
Abbreviation Key := (Z * string * string)%type.

(** [SecretsKVStore] is an interface for k/v store.  [S] is the state of an
    implementation; every method threads it. *)
Class SecretsKVStore (S : Type) : Type := {
  Get : S -> Z -> string -> string -> (string * bool * error) * S;
  Set_ : S -> Z -> string -> string -> string -> error * S;
  Del : S -> Z -> string -> string -> error * S;
  Keys : S -> Z -> string -> string -> (list Key * error) * S;
  Rename : S -> Z -> string -> string -> string -> error * S
}.

(** ** FixedKVStore *)

(** [FixedKVStore] is a [SecretsKVStore] wrapper with fixed orgId, namespace
    and type. *)
Record FixedKVStore (S : Type) : Type := mkFixed {
  kvStore : S;
  OrgId : Z;
  Namespace : string;
  Typ : string
}.
Arguments mkFixed {S}.
Arguments kvStore {S}.
Arguments OrgId {S}.
Arguments Namespace {S}.
Arguments Typ {S}.

(** [With] returns a kvstore wrapper with fixed orgId and type. *)
Definition With {S} (kv : S) (orgId : Z) (namespace typ : string)
  : FixedKVStore S :=
  {| kvStore := kv; OrgId := orgId; Namespace := namespace; Typ := typ |}.

Section Fixed.
Context {S : Type} `{SecretsKVStore S}.

Definition Fixed_Get (kv : FixedKVStore S)
  : (string * bool * error) * FixedKVStore S :=
  let '(r, st) := Get (kvStore kv) (OrgId kv) (Namespace kv) (Typ kv) in
  (r, mkFixed st (OrgId kv) (Namespace kv) (Typ kv)).

Definition Fixed_Set (kv : FixedKVStore S) (value : string)
  : error * FixedKVStore S :=
  let '(err, st) :=
    Set_ (kvStore kv) (OrgId kv) (Namespace kv) (Typ kv) value in
  (err, mkFixed st (OrgId kv) (Namespace kv) (Typ kv)).

Definition Fixed_Del (kv : FixedKVStore S) : error * FixedKVStore S :=
  let '(err, st) := Del (kvStore kv) (OrgId kv) (Namespace kv) (Typ kv) in
  (err, mkFixed st (OrgId kv) (Namespace kv) (Typ kv)).

Definition Fixed_Keys (kv : FixedKVStore S)
  : (list Key * error) * FixedKVStore S :=
  let '(r, st) := Keys (kvStore kv) (OrgId kv) (Namespace kv) (Typ kv) in
  (r, mkFixed st (OrgId kv) (Namespace kv) (Typ kv)).

Definition Fixed_Rename (kv : FixedKVStore S) (newNamespace : string)
  : error * FixedKVStore S :=
  let '(err, st) :=
    Rename (kvStore kv) (OrgId kv) (Namespace kv) (Typ kv) newNamespace in
  match err with
  | Some e => (Some e, mkFixed st (OrgId kv) (Namespace kv) (Typ kv))
  | None => (None, mkFixed st (OrgId kv) newNamespace (Typ kv))
  end.
End Fixed.

(** ** A store that records the calls it receives

    Used to count delegations: every method appends the call to [calls] and
    then forwards it to the wrapped store. *)

Inductive Call : Type :=
| CallGet (orgId : Z) (namespace typ : string)
| CallSet (orgId : Z) (namespace typ value : string)
| CallDel (orgId : Z) (namespace typ : string)
| CallKeys (orgId : Z) (namespace typ : string)
| CallRename (orgId : Z) (namespace typ newNamespace : string).

Record Recorder (S : Type) : Type := mkRecorder {
  inner : S;
  calls : list Call
}.
Arguments mkRecorder {S}.
Arguments inner {S}.
Arguments calls {S}.

Definition record {S A} (c : Call) (r : Recorder S) (res : A * S)
  : A * Recorder S :=
  (fst res, mkRecorder (snd res) (calls r ++ [c])).

#[export] Instance Recorder_store {S} `{SecretsKVStore S}
  : SecretsKVStore (Recorder S) := {
  Get r o n t := record (CallGet o n t) r (Get (inner r) o n t);
  Set_ r o n t v := record (CallSet o n t v) r (Set_ (inner r) o n t v);
  Del r o n t := record (CallDel o n t) r (Del (inner r) o n t);
  Keys r o n t := record (CallKeys o n t) r (Keys (inner r) o n t);
  Rename r o n t n' :=
    record (CallRename o n t n') r (Rename (inner r) o n t n')
}.

(** ** The caching decorator *)

(** Modelled from the spec: [NewCachedKVStore] and the methods of the store
    it builds are not among the sources; section 4.2 (Caching Decorator) and
    the Cache Entry of section 3 are followed.  An entry holds the last-known
    value, a present/absent flag and an expiry timestamp.  [clock] is the
    reading of the process clock, counted from the construction of the
    cache; [elapse] advances it. *)
Record cacheEntry : Type := mkEntry {
  value : string;
  found : bool;
  expiry : Z
}.

Record CachedKVStore (S : Type) : Type := mkCached {
  store : S;
  cache : gmap Key cacheEntry;
  defaultExpiration : time.Duration;
  cleanupInterval : time.Duration;
  clock : Z
}.
Arguments mkCached {S}.
Arguments store {S}.
Arguments cache {S}.
Arguments defaultExpiration {S}.
Arguments cleanupInterval {S}.
Arguments clock {S}.

Definition NewCachedKVStore {S} (st : S)
    (defaultExpiration cleanupInterval : time.Duration) : CachedKVStore S :=
  mkCached st ∅ defaultExpiration cleanupInterval 0.

(** An entry is live until its expiry has passed. *)
Definition live (now : Z) (e : cacheEntry) : bool := now <=? expiry e.

Definition with_store {S} (c : CachedKVStore S) (st : S) : CachedKVStore S :=
  mkCached st (cache c) (defaultExpiration c) (cleanupInterval c) (clock c).

Definition with_cache {S} (c : CachedKVStore S) (st : S)
    (m : gmap Key cacheEntry) : CachedKVStore S :=
  mkCached st m (defaultExpiration c) (cleanupInterval c) (clock c).

Definition elapse {S} (d : time.Duration) (c : CachedKVStore S)
  : CachedKVStore S :=
  mkCached (store c) (cache c) (defaultExpiration c) (cleanupInterval c)
           (clock c + d).

(** The background sweep evicts the expired entries. *)
Definition sweep {S} (c : CachedKVStore S) : CachedKVStore S :=
  with_cache c (store c)
    (filter (fun kv : Key * cacheEntry => live (clock c) (snd kv) = true)
            (cache c)).

Section Cached.
Context {S : Type} `{SecretsKVStore S}.

Definition call_through (c : CachedKVStore S) (o : Z) (n t : string)
  : (string * bool * error) * CachedKVStore S :=
  let '((v, ok, err), st) := Get (store c) o n t in
  match err with
  | Some e => ((v, ok, Some e), with_store c st)
  | None =>
      ((v, ok, None),
       with_cache c st
         (<[(o, n, t) := mkEntry v ok (clock c + defaultExpiration c)]>
            (cache c)))
  end.

Definition Cached_Get (c : CachedKVStore S) (o : Z) (n t : string)
  : (string * bool * error) * CachedKVStore S :=
  match cache c !! (o, n, t) with
  | Some e =>
      if live (clock c) e then ((value e, found e, None), c)
      else call_through c o n t
  | None => call_through c o n t
  end.

Definition Cached_Set (c : CachedKVStore S) (o : Z) (n t v : string)
  : error * CachedKVStore S :=
  let '(err, st) := Set_ (store c) o n t v in
  match err with
  | Some e => (Some e, with_store c st)
  | None => (None, with_cache c st (delete (o, n, t) (cache c)))
  end.

Definition Cached_Del (c : CachedKVStore S) (o : Z) (n t : string)
  : error * CachedKVStore S :=
  let '(err, st) := Del (store c) o n t in
  match err with
  | Some e => (Some e, with_store c st)
  | None => (None, with_cache c st (delete (o, n, t) (cache c)))
  end.

Definition Cached_Keys (c : CachedKVStore S) (o : Z) (n t : string)
  : (list Key * error) * CachedKVStore S :=
  let '(r, st) := Keys (store c) o n t in (r, with_store c st).

Definition Cached_Rename (c : CachedKVStore S) (o : Z) (n t n' : string)
  : error * CachedKVStore S :=
  let '(err, st) := Rename (store c) o n t n' in
  match err with
  | Some e => (Some e, with_store c st)
  | None =>
      (None,
       with_cache c st (delete (o, n', t) (delete (o, n, t) (cache c))))
  end.

#[export] Instance Cached_store : SecretsKVStore (CachedKVStore S) := {
  Get := Cached_Get;
  Set_ := Cached_Set;
  Del := Cached_Del;
  Keys := Cached_Keys;
  Rename := Cached_Rename
}.
End Cached.

(** ** A reference backend *)

(** Modelled from the spec: the SQL and plugin backends are not among the
    sources.  Section 3 (Secret Record) is followed: at most one record per
    triple, created or updated in place by [Set], removed by [Del], moved by
    [Rename].  The table never fails; a rename of an absent record changes
    nothing. *)
Definition rename_record (k k' : Key) (m : gmap Key string)
  : gmap Key string :=
  match m !! k with
  | Some v => <[k' := v]> (delete k m)
  | None => m
  end.

Definition org_matches (wanted : Z) (k : Key) : bool :=
  (wanted =? AllOrganizations) || (wanted =? fst (fst k)).

Definition table_keys (m : gmap Key string) (o : Z) (n t : string)
  : list Key :=
  List.filter
    (fun k => org_matches o k && String.eqb (snd (fst k)) n
              && String.eqb (snd k) t)
    (map fst (map_to_list m)).

Record Table : Type := mkTable { rows : gmap Key string }.

#[export] Instance Table_store : SecretsKVStore Table := {
  Get m o n t :=
    (match rows m !! (o, n, t) with
     | Some v => (v, true, None)
     | None => (EmptyString, false, None)
     end, m);
  Set_ m o n t v := (None, mkTable (<[(o, n, t) := v]> (rows m)));
  Del m o n t := (None, mkTable (delete (o, n, t) (rows m)));
  Keys m o n t := ((table_keys (rows m) o n t, None), m);
  Rename m o n t n' :=
    (None, mkTable (rename_record (o, n, t) (o, n', t) (rows m)))
}.

(** ** The contract of a backend *)

(** Modelled from the spec: what sections 3 and 6 promise of any store.
    [kv_view] is the set of records a store holds, [kv_inv] an invariant of
    its reachable states.  A failed call leaves the records as they were. *)
Class KVContract (S : Type) `{SecretsKVStore S} : Type := {
  kv_inv : S -> Prop;
  kv_view : S -> gmap Key string;
  Get_contract : forall s o n t v ok err s',
    kv_inv s -> Get s o n t = ((v, ok, err), s') ->
    kv_inv s' /\ kv_view s' = kv_view s /\
    (err = None ->
     match kv_view s !! (o, n, t) with
     | Some x => v = x /\ ok = true
     | None => ok = false
     end);
  Set_contract : forall s o n t v err s',
    kv_inv s -> Set_ s o n t v = (err, s') ->
    kv_inv s' /\
    kv_view s' = match err with
                 | None => <[(o, n, t) := v]> (kv_view s)
                 | Some _ => kv_view s
                 end;
  Del_contract : forall s o n t err s',
    kv_inv s -> Del s o n t = (err, s') ->
    kv_inv s' /\
    kv_view s' = match err with
                 | None => delete (o, n, t) (kv_view s)
                 | Some _ => kv_view s
                 end;
  Keys_contract : forall s o n t r s',
    kv_inv s -> Keys s o n t = (r, s') ->
    kv_inv s' /\ kv_view s' = kv_view s;
  Rename_contract : forall s o n t n' err s',
    kv_inv s -> Rename s o n t n' = (err, s') ->
    kv_inv s' /\
    kv_view s' = match err with
                 | None => rename_record (o, n, t) (o, n', t) (kv_view s)
                 | Some _ => kv_view s
                 end
}.

(** The cache agrees with the wrapped store on every entry it holds. *)
Definition coherent {S} `{KVContract S} (c : CachedKVStore S) : Prop :=
  kv_inv (store c) /\
  forall k e, cache c !! k = Some e ->
    match kv_view (store c) !! k with
    | Some x => value e = x /\ found e = true
    | None => found e = false
    end.

(** ** The backend selector *)

Inductive LogLine : Type :=
| Debug (msg : string)
| Error (msg : string).

Section Selector.
(** Collaborators of other packages: the SQL store, the secrets service,
    the plugin handle, the infrastructure kv store with its namespaced
    view, and the decrypted-value cache of the SQL backend. *)
Variables SqlStore SecretsService Plugin InfraKV NamespacedKVStore
          cachedDecrypted : Type.
Variable GetNamespacedKVStore : InfraKV -> NamespacedKVStore.
(** [isPluginErrorFatal] reads the persisted classification. *)
Variable isPluginErrorFatal : NamespacedKVStore -> bool * error.

(** The [UseRemoteSecretsPluginCheck] interface: what its two methods
    return on this start-up. *)
Record UseRemoteSecretsPluginCheck : Type := mkCheck {
  ShouldUseRemoteSecretsPlugin : bool * error;
  GetPlugin : option Plugin * error
}.

Inductive Backend : Type :=
| secretsKVStoreSQL (sqlStore : SqlStore) (secretsService : SecretsService)
    (decryptionCache : gmap Z cachedDecrypted)
| secretsKVStorePlugin (secretsPlugin : option Plugin)
    (secretsService : SecretsService).

Definition ProvideService (sqlStore : SqlStore)
    (secretsService : SecretsService)
    (remoteCheck : UseRemoteSecretsPluginCheck) (kvstore : InfraKV)
  : (option (CachedKVStore Backend) * error) * list LogLine :=
  let logger : list LogLine := [] in
  let namespacedKVStore := GetNamespacedKVStore kvstore in
  let store := secretsKVStoreSQL sqlStore secretsService ∅ in
  let '(usePlugin, err) := ShouldUseRemoteSecretsPlugin remoteCheck in
  let selected : (string + Backend) * list LogLine :=
    match err, usePlugin with
    | None, true =>
        let logger := logger ++
          [Debug "secrets kvstore is using a remote plugin for secrets management"] in
        let '(secretsPlugin, err) := GetPlugin remoteCheck in
        match err with
        | Some _ =>
            (inr store, logger ++
               [Error "plugin client was nil, falling back to SQL implementation"])
        | None =>
            (inr (secretsKVStorePlugin secretsPlugin secretsService), logger)
        end
    | Some e, _ =>
        let '(isFatal, err2) := isPluginErrorFatal namespacedKVStore in
        if isFatal || bool_decide (err2 <> None) then
          let logger := logger ++
            [Error "secrets management plugin is required to start -- exiting app"] in
          match err2 with
          | Some e2 => (inl e2, logger)
          | None => (inl e, logger)
          end
        else (inr store, logger)
    | None, false =>
        (inr store, logger ++
           [Debug "secrets kvstore is using the default (SQL) implementation for secrets management"])
    end in
  match selected with
  | (inl e, logger) => ((None, Some e), logger)
  | (inr store, logger) =>
      ((Some (NewCachedKVStore store (5 * time.Second) (5 * time.Minute)),
        None), logger)
  end.
End Selector.

End kvstore.

(** * package simplejson *)

(** Modelled from the spec: the structured settings blob of a data-source
    record (section 3).  The package is not among the sources; a blob is a
    JSON object whose entries are scalars.  [Get] yields the entry (nothing
    when the key is absent), [Bool] converts it and reports a conversion
    error for anything but a boolean, [Set_] writes an entry. *)
Module simplejson.

Inductive JVal : Type :=
| JNull
| JBool (b : bool)
| JNumber (n : Z)
| JString (s : string).

Abbreviation Json := (gmap string JVal).

Definition Get (j : Json) (key : string) : option JVal := j !! key.

Definition Bool (v : option JVal) : bool * error :=
  match v with
  | Some (JBool b) => (b, None)
  | _ => (false, Some "type assertion to bool failed"%string)
  end.

Definition Set_ (j : Json) (key : string) (val : JVal) : Json :=
  <[key := val]> j.

End simplejson.

(** * package datasources *)

Module datasources.
Import simplejson.

(** A data-source record: the fields the migration reads. *)
Record DataSource : Type := mkDataSource {
  Id : Z;
  OrgId : Z;
  Uid : string;
  Name : string;
  JsonData : Json;
  SecureJsonData : gmap string string
}.

Record UpdateDataSourceCommand : Type := mkUpdate {
  upd_Id : Z;
  upd_OrgId : Z;
  upd_Uid : string;
  upd_JsonData : Json
}.

Record DeleteDataSourceSecretsCommand : Type := mkDelete {
  UID : string;
  OrgID : Z;
  ID : Z
}.

(** Modelled from the spec: the Data-Source Record Service of section 6 is
    an external collaborator.  Its answers on this run: the error of the
    listing call if it fails, the decryption of a record's legacy secrets,
    and the error of an update or of a delete if it fails. *)
Record DataSourceService : Type := mkService {
  GetDataSources_fails : error;
  DecryptLegacySecrets_of : DataSource -> string + gmap string string;
  UpdateDataSource_fails : UpdateDataSourceCommand -> error;
  DeleteDataSourceSecrets_fails : DeleteDataSourceSecretsCommand -> error
}.

Definition with_JsonData (r : DataSource) (j : Json) : DataSource :=
  mkDataSource (Id r) (OrgId r) (Uid r) (Name r) j (SecureJsonData r).

Definition without_secrets (r : DataSource) : DataSource :=
  mkDataSource (Id r) (OrgId r) (Uid r) (Name r) (JsonData r) ∅.

(** Modelled from the spec: an update is a record delta (section 6); it
    replaces the settings blob of the rows it addresses. *)
Definition update_rows (cmd : UpdateDataSourceCommand)
    (rows : list DataSource) : list DataSource :=
  map (fun r =>
         if (Id r =? upd_Id cmd) && (OrgId r =? upd_OrgId cmd)
         then with_JsonData r (upd_JsonData cmd) else r) rows.

(** Modelled from the spec: the delete clears the legacy secure payload of
    the rows it addresses (section 3). *)
Definition clear_rows (cmd : DeleteDataSourceSecretsCommand)
    (rows : list DataSource) : list DataSource :=
  map (fun r =>
         if (Id r =? ID cmd) && (OrgId r =? OrgID cmd)
            && String.eqb (Uid r) (UID cmd)
         then without_secrets r else r) rows.

End datasources.

(** * package featuremgmt *)

Module featuremgmt.
Definition FlagDisableSecretsCompatibility : string :=
  "disableSecretsCompatibility".
(** [FeatureToggles]: which flags are enabled. *)
Definition FeatureToggles : Type := string -> bool.
Definition IsEnabled (f : FeatureToggles) (flag : string) : bool := f flag.
End featuremgmt.

(** * package migration *)

Module migration.
Import simplejson datasources featuremgmt.
Import kvstore(SecretsKVStore, Set_).

Definition dataSourceSecretType : string := "datasource".

(** What the service does to its collaborators, in order. *)
Inductive Event : Type :=
| EvAddEventListener
| EvTimeAfter (d : time.Duration)
| EvBegin
| EvCommit
| EvRollback
| EvDebug (msg : string)
| EvGetDataSources
| EvDecryptLegacySecrets (ds : DataSource)
| EvSet (orgId : Z) (namespace typ value : string)
| EvUpdateDataSource (cmd : UpdateDataSourceCommand)
| EvDeleteDataSourceSecrets (cmd : DeleteDataSourceSecretsCommand).

(** The state the service acts on: the process clock [now], the instants
    at which data-source-created events are still to be published, the
    number of listeners on the bus, the data-source table of the SQL
    store, the secrets store and the calls issued so far. *)
Record World (S : Type) : Type := mkWorld {
  now : Z;
  pending : list Z;
  listeners : nat;
  db : list DataSource;
  secretsStore : S;
  trace : list Event
}.
Arguments mkWorld {S}.
Arguments now {S}.
Arguments pending {S}.
Arguments listeners {S}.
Arguments db {S}.
Arguments secretsStore {S}.
Arguments trace {S}.

(** The fields of [DataSourceSecretMigrationService] that are not state. *)
Record DataSourceSecretMigrationService : Type := mkMigration {
  dataSourcesService : DataSourceService;
  features : FeatureToggles
}.

Section Machine.
Context {S : Type}.

Definition set_db (w : World S) (d : list DataSource) : World S :=
  mkWorld (now w) (pending w) (listeners w) d (secretsStore w) (trace w).

Definition set_secretsStore (w : World S) (st : S) : World S :=
  mkWorld (now w) (pending w) (listeners w) (db w) st (trace w).

Definition set_now (w : World S) (t : Z) : World S :=
  mkWorld t (pending w) (listeners w) (db w) (secretsStore w) (trace w).

Definition set_pending (w : World S) (p : list Z) : World S :=
  mkWorld (now w) p (listeners w) (db w) (secretsStore w) (trace w).

Definition log (w : World S) (e : Event) : World S :=
  mkWorld (now w) (pending w) (listeners w) (db w) (secretsStore w)
          (trace w ++ [e]).

(** A computation that may return early with an error. *)
Definition M (A : Type) : Type := World S -> (string + A) * World S.

Definition ret {A} (a : A) : M A := fun w => (inr a, w).

Definition bind {A B} (m : M A) (k : A -> M B) : M B :=
  fun w => match m w with
           | (inl e, w') => (inl e, w')
           | (inr a, w') => k a w'
           end.

Definition emit (e : Event) : M unit := fun w => (inr tt, log w e).

(** [if err != nil { return err }] *)
Definition check (err : error) : M unit :=
  fun w => match err with
           | Some e => (inl e, w)
           | None => (inr tt, w)
           end.

Definition lift {A} (r : string + A) : M A := fun w => (r, w).
End Machine.

Notation "'let*' x := m 'in' k" := (bind m (fun x => k))
  (at level 10, x name, m at level 100, k at level 200).
Notation "m >> k" := (bind m (fun _ => k))
  (at level 100, k at level 200, right associativity).

Section Service.
Context {S : Type} `{SecretsKVStore S}.
(** [encoding/json]'s [Marshal] at [map[string]string]. *)
Variable json_Marshal : gmap string string -> string + string.
Variable s : DataSourceSecretMigrationService.

(** ** The event bus and the timer *)

Definition AddEventListener (w : World S) : World S :=
  log (mkWorld (now w) (pending w) (Datatypes.S (listeners w)) (db w)
               (secretsStore w) (trace w)) EvAddEventListener.

(** [time.After] starts a timer and hands back its channel, here the
    instant at which it fires; the call itself returns at once. *)
Definition time_After (d : time.Duration) (w : World S) : Z * World S :=
  (now w + d, log w (EvTimeAfter d)).

(** Receiving from the channel of a timer blocks until it has fired. *)
Definition receive (deadline : Z) (w : World S) : World S :=
  set_now w (Z.max (now w) deadline).

(** A listener registered at [since] has seen an event by [now w] when
    one was published in between. *)
Definition notified (since : Z) (w : World S) : bool :=
  existsb (fun e => (since <=? e) && (e <=? now w)) (pending w).

(** The events due by [now w] have been published. *)
Definition published (w : World S) : World S :=
  set_pending w (List.filter (fun e => now w <? e) (pending w)).

Fixpoint WaitForProvisioning (fuel : nat) (w : World S)
  : option (error * World S) :=
  match fuel with
  | O => None
  | Datatypes.S fuel' =>
      let since := now w in
      let w := AddEventListener w in
      let '(_, w) := time_After (5 * time.Second) w in
      let wait := notified since w in
      let w := published w in
      if wait then WaitForProvisioning fuel' w else Some (None, w)
  end.

(** ** The collaborators of the migration *)

Definition GetDataSources : M (list DataSource) :=
  emit EvGetDataSources >>
  check (GetDataSources_fails (dataSourcesService s)) >>
  (fun w : World S => (inr (db w), w)).

Definition DecryptLegacySecrets (ds : DataSource)
  : M (gmap string string) :=
  emit (S := S) (EvDecryptLegacySecrets ds) >>
  lift (DecryptLegacySecrets_of (dataSourcesService s) ds).

Definition secretsStore_Set (orgId : Z) (namespace typ value : string)
  : M unit :=
  emit (EvSet orgId namespace typ value) >>
  (fun w : World S =>
     let '(err, st) := Set_ (secretsStore w) orgId namespace typ value in
     check err (set_secretsStore w st)).

Definition UpdateDataSource (cmd : UpdateDataSourceCommand) : M unit :=
  emit (EvUpdateDataSource cmd) >>
  check (UpdateDataSource_fails (dataSourcesService s) cmd) >>
  (fun w : World S => (inr tt, set_db w (update_rows cmd (db w)))).

Definition DeleteDataSourceSecrets (cmd : DeleteDataSourceSecretsCommand)
  : M unit :=
  emit (EvDeleteDataSourceSecrets cmd) >>
  check (DeleteDataSourceSecrets_fails (dataSourcesService s) cmd) >>
  (fun w : World S => (inr tt, set_db w (clear_rows cmd (db w)))).

(** Modelled from the spec: [InTransaction] of the SQL store is not among
    the sources.  Section 9 makes it a unit of work: begin, run the
    callback, commit or roll back as one.  A rollback restores the
    data-source table; the secrets store is written outside of the
    transaction (section 5) and keeps what it was given. *)
Definition InTransaction (w : World S) (callback : M unit)
  : error * World S :=
  let before := db w in
  match callback (log w EvBegin) with
  | (inl e, w') => (Some e, log (set_db w' before) EvRollback)
  | (inr _, w') => (None, log w' EvCommit)
  end.

(** ** Run *)

Definition hasMigration (ds : DataSource) : bool :=
  fst (Bool (Get (JsonData ds) "secretMigrationComplete")).

(** The body of the loop over [query.Result]. *)
Definition migrateDataSource (ds : DataSource) : M unit :=
  (if negb (hasMigration ds) then
     let* secureJsonData := DecryptLegacySecrets ds in
     let* jsonData := lift (json_Marshal secureJsonData) in
     secretsStore_Set (OrgId ds) (Name ds) dataSourceSecretType jsonData >>
     let JsonData' :=
       simplejson.Set_ (JsonData ds) "secretMigrationComplete" (JBool true) in
     UpdateDataSource (mkUpdate (Id ds) (OrgId ds) (Uid ds) JsonData')
   else ret tt) >>
  if IsEnabled (features s) FlagDisableSecretsCompatibility
     && (0 <? Z.of_nat (size (SecureJsonData ds)))
  then DeleteDataSourceSecrets (mkDelete (Uid ds) (OrgId ds) (Id ds))
  else ret tt.

Fixpoint forEach (result : list DataSource) : M unit :=
  match result with
  | [] => ret tt
  | ds :: rest => migrateDataSource ds >> forEach rest
  end.

(** The function handed to [InTransaction]. *)
Definition migrate : M unit :=
  let* result := GetDataSources in
  emit (EvDebug "starting data source secret migration") >>
  forEach result >>
  emit (EvDebug "data source secret migration complete").

Definition Run (fuel : nat) (w : World S) : option (error * World S) :=
  match WaitForProvisioning fuel w with
  | None => None
  | Some (_, w) => Some (InTransaction w migrate)
  end.

(** ** The await-provisioning phase as section 4.4 words it

    It registers the listener, waits the fixed interval and only then
    looks whether a notification arrived.  Kept next to
    [WaitForProvisioning] to compare the two. *)
Fixpoint WaitForProvisioning_spec (fuel : nat) (w : World S)
  : option (error * World S) :=
  match fuel with
  | O => None
  | Datatypes.S fuel' =>
      let since := now w in
      let w := AddEventListener w in
      let '(timer, w) := time_After (5 * time.Second) w in
      let w := receive timer w in
      let wait := notified since w in
      let w := published w in
      if wait then WaitForProvisioning_spec fuel' w else Some (None, w)
  end.
End Service.

End migration.

(** * package strings *)

(** The two functions of Go's [strings] that the user commands call.  The
    standard library is not among the sources; the functions follow its
    documentation. *)
Module strings.

(** [Contains] reports whether [substr] is within [s]. *)
Fixpoint Contains (s substr : string) : bool :=
  String.prefix substr s
  || match s with
     | EmptyString => false
     | String _ rest => Contains rest substr
     end.

(** [Split] slices [s] into the substrings separated by [sep]; every call
    in the sources passes the one-byte separator [","].  A string without
    separator, the empty one included, gives one piece. *)
Fixpoint Split (s : string) (sep : Ascii.ascii) : list string :=
  match s with
  | EmptyString => [EmptyString]
  | String c rest =>
      if Ascii.eqb c sep then EmptyString :: Split rest sep
      else match Split rest sep with
           | piece :: pieces => String c piece :: pieces
           | [] => [String c EmptyString]
           end
  end.

End strings.

(** * package strconv *)

(** [ParseInt] of Go's [strconv] at base 10 and bit size 64, as every call
    in the sources has it.  The standard library is not among the sources;
    the function follows its documentation: an optional sign, then one or
    more decimal digits, within the range of [int64]. *)
Module strconv.

Inductive numError : Type :=
| ErrSyntax
| ErrRange.

Definition maxUint64 : Z := 18446744073709551615.

(** The value of a decimal digit. *)
Definition digit (c : Ascii.ascii) : option Z :=
  let n := Z.of_nat (Ascii.nat_of_ascii c) in
  if (48 <=? n) && (n <=? 57) then Some (n - 48) else None.

(** The loop of [ParseUint]: [n] is the value read so far.  A byte that
    is no digit is a syntax error; a value that leaves 64 bits is a range
    error, reported where it arises. *)
Fixpoint parseDigits (s : string) (n : Z) : numError + Z :=
  match s with
  | EmptyString => inr n
  | String c rest =>
      match digit c with
      | None => inl ErrSyntax
      | Some d =>
          let n1 := n * 10 + d in
          if maxUint64 <? n1 then inl ErrRange else parseDigits rest n1
      end
  end.

Definition ParseUint (s : string) : numError + Z :=
  match s with
  | EmptyString => inl ErrSyntax
  | _ => parseDigits s 0
  end.

(** The sign that [ParseInt] picks off, and what is left. *)
Definition sign (s : string) : bool * string :=
  match s with
  | String c rest =>
      if Ascii.eqb c (Ascii.ascii_of_nat 43) then (false, rest)
      else if Ascii.eqb c (Ascii.ascii_of_nat 45) then (true, rest)
      else (false, s)
  | EmptyString => (false, s)
  end.

Definition ParseInt (s : string) : numError + Z :=
  match s with
  | EmptyString => inl ErrSyntax
  | _ =>
      let '(neg, s1) := sign s in
      match ParseUint s1 with
      | inl e => inl e
      | inr un =>
          let cutoff := 9223372036854775808 in
          if negb neg && (cutoff <=? un) then inl ErrRange
          else if neg && (cutoff <? un) then inl ErrRange
          else inr (if neg then - un else un)
      end
  end.

End strconv.

(** * package commands: the conflicting-users command *)

Module commands.

(** A Go [error] of this package: a plain message, a message that wraps
    another error ([fmt.Errorf] with [%w]; the message is the text in front
    of the wrapped error), or the error of [strconv]. *)
Inductive goerror : Type :=
| errorString (msg : string)
| wrapError (msg : string) (err : goerror)
| NumError (Func Num : string) (Err : strconv.numError).

Record ConflictingUsers : Type := mkConflictingUsers {
  Ids : string;
  UserIdentifier : string;
  ConflictEmails : string;
  ConflictLogins : string;
  SameIdentificationConflictIds : bool
}.

(** [conflictType] is a string type; its zero value is the empty string. *)
Definition conflictType : Type := string.
Definition Merge : conflictType := "merge".
Definition SameIdentification : conflictType := "same_identification".

Definition Conflict (cUser : ConflictingUsers) : conflictType :=
  let cType : conflictType := EmptyString in
  if SameIdentificationConflictIds cUser then SameIdentification
  else if negb (String.eqb (ConflictEmails cUser) EmptyString)
          || negb (String.eqb (ConflictLogins cUser) EmptyString)
       then Merge
       else cType.

(** ** The SQL store *)

(** The calls the commands make on the SQL store. *)
Inductive StoreCall : Type :=
| CallMergeUser (mergeIntoUser : Z) (fromUserIds : list Z)
| CallUpdateUser (UserId : Z)
| CallDeleteUser (UserId : Z).

(** The store is a collaborator: [answer] is the error it returns to a
    call, given the calls it received before. *)
Record SQLStore : Type := mkSQLStore {
  answer : list StoreCall -> StoreCall -> option goerror
}.

(** One call: the store answers and has received one call more. *)
Definition call (sqlStore : SQLStore) (c : StoreCall)
    (received : list StoreCall) : option goerror * list StoreCall :=
  (answer sqlStore received c, received ++ [c]).

(** ** mergeUser *)

(** The loop of [mergeUser]: [fromUserIds] holds the ids parsed so far. *)
Fixpoint parseIds (stringIds : list string) (fromUserIds : list Z)
  : goerror + list Z :=
  match stringIds with
  | [] => inr fromUserIds
  | raw :: rest =>
      match strconv.ParseInt raw with
      | inl _ => inl (errorString "could not parse id from string")
      | inr v => parseIds rest (fromUserIds ++ [v])
      end
  end.

Definition mergeUser (mergeIntoUser : Z) (cUser : ConflictingUsers)
    (sqlStore : SQLStore) (received : list StoreCall)
  : option goerror * list StoreCall :=
  let stringIds := strings.Split (Ids cUser) (Ascii.ascii_of_nat 44) in
  match parseIds stringIds [] with
  | inl err => (Some err, received)
  | inr fromUserIds =>
      call sqlStore (CallMergeUser mergeIntoUser fromUserIds) received
  end.

(** ** deDupeSameIdentification *)

(** The loop over the other users. *)
Fixpoint deleteUsers (otherUsers : list string) (sqlStore : SQLStore)
    (received : list StoreCall) : option goerror * list StoreCall :=
  match otherUsers with
  | [] => (None, received)
  | oUser :: rest =>
      match strconv.ParseInt oUser with
      | inl e => (Some (NumError "ParseInt" oUser e), received)
      | inr oUser =>
          match call sqlStore (CallDeleteUser oUser) received with
          | (Some err, received) =>
              (Some (wrapError "could not update user with details " err),
               received)
          | (None, received) => deleteUsers rest sqlStore received
          end
      end
  end.

Definition deDupeSameIdentification (chosenUser : Z)
    (cUser : ConflictingUsers) (sqlStore : SQLStore)
    (received : list StoreCall) : option goerror * list StoreCall :=
  match call sqlStore (CallUpdateUser chosenUser) received with
  | (Some err, received) =>
      (Some (wrapError "could not update user with details " err), received)
  | (None, received) =>
      let otherUsers := strings.Split (Ids cUser) (Ascii.ascii_of_nat 44) in
      deleteUsers otherUsers sqlStore received
  end.

(** ** The prompts *)

(** What [scanner.Scan] finds on standard input: a line, the end of the
    input, or a read error. *)
Inductive Scan : Type :=
| ScanLine (text : string)
| ScanEOF
| ScanFails (err : goerror).

(** What both prompts do once their message is logged. *)
Definition chooseUser (cUser : ConflictingUsers) (stdin : Scan)
  : Z * option goerror :=
  match stdin with
  | ScanFails err =>
      (-1, Some (wrapError "can't read conflict option from stdin: " err))
  | ScanEOF => (-1, Some (errorString "can't read conflict option from stdin"))
  | ScanLine chosenUser =>
      if negb (strings.Contains (Ids cUser) chosenUser)
      then (-1, Some (errorString "not a conflicting user id"))
      else match strconv.ParseInt chosenUser with
           | inl _ => (-1, Some (errorString "could not parse id from string"))
           | inr v => (v, None)
           end
  end.

(** A prompt returns its result and the line it logged. *)
Definition promptToMerge (cUser : ConflictingUsers) (stdin : Scan)
  : (Z * option goerror) * list string :=
  (chooseUser cUser stdin, ["Choose which user to merge into:"%string]).

Definition promptSameIdentification (cUser : ConflictingUsers) (stdin : Scan)
  : (Z * option goerror) * list string :=
  (chooseUser cUser stdin,
   ["Found same identification for users, choose which user to keep and update:"%string]).

(** ** Print *)

Definition newline : string := String (Ascii.ascii_of_nat 10) EmptyString.

(** [fmt.Sprintf] at the format of [Print]. *)
Definition conflictLine (id email login : string) : string :=
  String.append "Id: "
    (String.append id
       (String.append ", Email: "
          (String.append email
             (String.append ", Login: "
                (String.append login
                   (String.append newline
                      (String.append "---" newline))))))).

(** What [Print] writes: to standard output, or through the logger. *)
Inductive Output : Type :=
| Stdout (text : string)
| Logged (text : string).

(** The loop of [Print] from index [i] on, with [n] rounds to go: what it
    logs, and whether it ended in an index-out-of-range panic. *)
Fixpoint printFrom (HiYellowString : string -> string)
    (ids emails logins : list string) (i n : nat) : list Output * bool :=
  match n with
  | O => ([], false)
  | Datatypes.S n' =>
      match ids !! i, emails !! i, logins !! i with
      | Some id, Some email, Some login =>
          let '(lines, panicked) :=
            printFrom HiYellowString ids emails logins (Datatypes.S i) n' in
          (Logged (HiYellowString (conflictLine id email login)) :: lines,
           panicked)
      | _, _, _ => ([], true)
      end
  end.

(** [Print]: what it wrote and whether it panicked.  The colouring of the
    terminal library is a parameter. *)
Definition Print (HiYellowString : string -> string) (c : ConflictingUsers)
  : list Output * bool :=
  let ids := strings.Split (Ids c) (Ascii.ascii_of_nat 44) in
  let emails := strings.Split (ConflictEmails c) (Ascii.ascii_of_nat 44) in
  let logins := strings.Split (ConflictLogins c) (Ascii.ascii_of_nat 44) in
  let '(lines, panicked) :=
    printFrom HiYellowString ids emails logins 0 (length ids) in
  (Stdout newline :: lines, panicked).

End commands.

(** * Vocabulary of the statements *)

Import kvstore.
Import simplejson(JVal, JNull, JBool, JNumber, JString).
Import datasources featuremgmt migration.

Section SelectorTerms.
Context {SqlStore SecretsService Plugin cachedDecrypted : Type}.

(** The decorated store [ProvideService] hands out for a backend. *)
Definition decorated (b : Backend SqlStore SecretsService Plugin
                                  cachedDecrypted) :=
  NewCachedKVStore b (5 * time.Second) (5 * time.Minute).
End SelectorTerms.

(** What a successful read may answer, given the records held. *)
Definition answers (m : gmap Key string) (k : Key) (v : string)
    (ok : bool) : Prop :=
  match m !! k with
  | Some x => v = x /\ ok = true
  | None => ok = false
  end.

Section Vocabulary.
Context {S : Type} `{SecretsKVStore S}.
Variable json_Marshal : gmap string string -> string + string.
Variable s : DataSourceSecretMigrationService.

Local Abbreviation service := (dataSourcesService s).

(** One round of the phase: the listener is registered and the timer is
    started; no time passes. *)
Definition round (w : World S) : World S :=
  published (snd (time_After (5 * time.Second) (AddEventListener w))).

(** The events the phase emits. *)
Definition waiting (e : Event) : Prop :=
  match e with
  | EvAddEventListener | EvTimeAfter _ => True
  | _ => False
  end.

(** The events of the callback: everything but the bus, the timer and
    the transaction boundary. *)
Definition calling (e : Event) : Prop :=
  match e with
  | EvAddEventListener | EvTimeAfter _ | EvBegin | EvCommit | EvRollback =>
      False
  | _ => True
  end.

(** [w'] is [w] after some calls of the callback. *)
Definition inside (w w' : World S) : Prop :=
  now w' = now w /\ pending w' = pending w /\ listeners w' = listeners w /\
  exists evs, trace w' = trace w ++ evs /\ Forall calling evs.

(** A computation stays inside when every run of it does. *)
Definition stays {A} (m : M (S := S) A) : Prop :=
  forall w r w', m w = (r, w') -> inside w w'.

(** The event that closes a transaction. *)
Definition closing (r : error) : Event :=
  match r with
  | None => EvCommit
  | Some _ => EvRollback
  end.

Definition marker : string := "secretMigrationComplete".

(** The commands [Run] builds for a record. *)
Definition updateCommand (ds : DataSource) : UpdateDataSourceCommand :=
  mkUpdate (Id ds) (OrgId ds) (Uid ds)
           (simplejson.Set_ (JsonData ds) marker (JBool true)).

Definition deleteCommand (ds : DataSource)
  : DeleteDataSourceSecretsCommand :=
  mkDelete (Uid ds) (OrgId ds) (Id ds).

(** The guard of the clean-up step. *)
Definition purges (ds : DataSource) : bool :=
  IsEnabled (features s) FlagDisableSecretsCompatibility
  && (0 <? Z.of_nat (size (SecureJsonData ds))).

(** The two halves of the loop body. *)
Definition moveSecrets (ds : DataSource) : M (S := S) unit :=
  let* secureJsonData := DecryptLegacySecrets s ds in
  let* jsonData := lift (json_Marshal secureJsonData) in
  secretsStore_Set (OrgId ds) (Name ds) dataSourceSecretType jsonData >>
  UpdateDataSource s (updateCommand ds).

Definition purgeLegacy (ds : DataSource) : M (S := S) unit :=
  if purges ds then DeleteDataSourceSecrets s (deleteCommand ds)
  else ret tt.

(** The state after the secrets of [ds] were moved: the value [js] went
    to the store, which answered with the state [st]. *)
Definition moved (ds : DataSource) (js : string) (st : S) (w : World S)
  : World S :=
  mkWorld (now w) (pending w) (listeners w)
          (update_rows (updateCommand ds) (db w)) st
          (trace w ++ [EvDecryptLegacySecrets ds;
                       EvSet (OrgId ds) (Name ds) dataSourceSecretType js;
                       EvUpdateDataSource (updateCommand ds)]).

(** The state after the legacy payload of [ds] was deleted. *)
Definition purged (ds : DataSource) (w : World S) : World S :=
  mkWorld (now w) (pending w) (listeners w)
          (clear_rows (deleteCommand ds) (db w)) (secretsStore w)
          (trace w ++ [EvDeleteDataSourceSecrets (deleteCommand ds)]).

(** The secrets of [ds] move without error from the state [w]. *)
Definition moves (ds : DataSource) (w : World S) : Prop :=
  exists sec js st,
    DecryptLegacySecrets_of service ds = inr sec /\
    json_Marshal sec = inr js /\
    Set_ (secretsStore w) (OrgId ds) (Name ds) dataSourceSecretType js
      = (None, st) /\
    UpdateDataSource_fails service (updateCommand ds) = None.

(** A step of the migration of [ds] fails with [e] in the state [w]. *)
Inductive StepFails (ds : DataSource) (w : World S) (e : string) : Prop :=
| decrypt_fails :
    hasMigration ds = false ->
    DecryptLegacySecrets_of service ds = inl e ->
    StepFails ds w e
| serialize_fails sec :
    hasMigration ds = false ->
    DecryptLegacySecrets_of service ds = inr sec ->
    json_Marshal sec = inl e ->
    StepFails ds w e
| set_fails sec js st :
    hasMigration ds = false ->
    DecryptLegacySecrets_of service ds = inr sec ->
    json_Marshal sec = inr js ->
    Set_ (secretsStore w) (OrgId ds) (Name ds) dataSourceSecretType js
      = (Some e, st) ->
    StepFails ds w e
| update_fails sec js st :
    hasMigration ds = false ->
    DecryptLegacySecrets_of service ds = inr sec ->
    json_Marshal sec = inr js ->
    Set_ (secretsStore w) (OrgId ds) (Name ds) dataSourceSecretType js
      = (None, st) ->
    UpdateDataSource_fails service (updateCommand ds) = Some e ->
    StepFails ds w e
| delete_fails :
    hasMigration ds = true \/ moves ds w ->
    purges ds = true ->
    DeleteDataSourceSecrets_fails service (deleteCommand ds) = Some e ->
    StepFails ds w e.

(** The state in which the loop starts: the transaction is begun, the
    records are listed. *)
Definition listed (w : World S) : World S :=
  log (log (log w EvBegin) EvGetDataSources)
      (EvDebug "starting data source secret migration").

(** The calls a record costs when nothing fails. *)
Definition move_events (ds : DataSource) : list Event :=
  match DecryptLegacySecrets_of service ds with
  | inr sec =>
      match json_Marshal sec with
      | inr js =>
          [EvDecryptLegacySecrets ds;
           EvSet (OrgId ds) (Name ds) dataSourceSecretType js;
           EvUpdateDataSource (updateCommand ds)]
      | inl _ => []
      end
  | inl _ => []
  end.

Definition record_events (ds : DataSource) : list Event :=
  (if hasMigration ds then [] else move_events ds) ++
  (if purges ds then [EvDeleteDataSourceSecrets (deleteCommand ds)]
   else []).

(** What a record does to the rows of the table when nothing fails. *)
Definition update_row (cmd : UpdateDataSourceCommand) (r : DataSource)
  : DataSource :=
  if (Id r =? upd_Id cmd) && (OrgId r =? upd_OrgId cmd)
  then with_JsonData r (upd_JsonData cmd) else r.

Definition clear_row (cmd : DeleteDataSourceSecretsCommand)
    (r : DataSource) : DataSource :=
  if (Id r =? ID cmd) && (OrgId r =? OrgID cmd)
     && String.eqb (Uid r) (UID cmd)
  then without_secrets r else r.

Definition step_row (ds r : DataSource) : DataSource :=
  let r := if hasMigration ds then r else update_row (updateCommand ds) r in
  if purges ds then clear_row (deleteCommand ds) r else r.

Definition flag : bool :=
  IsEnabled (features s) FlagDisableSecretsCompatibility.

(** The row [r] is where a pass leaves the record [d]: the identity is
    kept, a marker once set stays set, the legacy payload is kept or
    emptied. *)
Definition tracks (d r : DataSource) : Prop :=
  Id r = Id d /\ OrgId r = OrgId d /\ Uid r = Uid d /\ Name r = Name d /\
  (hasMigration d = true -> hasMigration r = true) /\
  (SecureJsonData r = SecureJsonData d \/ SecureJsonData r = ∅).

(** The row is migrated, and purged when the flag asks for it. *)
Definition settled (r : DataSource) : Prop :=
  hasMigration r = true /\ (flag = true -> SecureJsonData r = ∅).

(** The table after the loop went over [dss] without error. *)
Definition after (dss rows : list DataSource) : list DataSource :=
  foldl (fun rows ds => map (step_row ds) rows) rows dss.

(** Calls that a record already migrated does not cost. *)
Definition quiet (e : Event) : Prop :=
  match e with
  | EvDecryptLegacySecrets _ | EvSet _ _ _ _ | EvUpdateDataSource _ => False
  | _ => True
  end.

(** From [w] to [w'] the secrets store and the settings blobs were left
    alone, and no secret was decrypted, stored or marked. *)
Definition quietly (w w' : World S) : Prop :=
  secretsStore w' = secretsStore w /\
  map JsonData (db w') = map JsonData (db w) /\
  exists evs, trace w' = trace w ++ evs /\ Forall quiet evs.

(** The serialized secrets of a record. *)
Definition stored (ds : DataSource) : string :=
  match DecryptLegacySecrets_of service ds with
  | inr sec =>
      match json_Marshal sec with
      | inr js => js
      | inl _ => EmptyString
      end
  | inl _ => EmptyString
  end.

Definition secretKey (ds : DataSource) : Key :=
  (OrgId ds, Name ds, dataSourceSecretType).

(** The records of the store once [ds] went through the loop. *)
Definition keep (m : gmap Key string) (ds : DataSource) : gmap Key string :=
  if hasMigration ds then m else <[secretKey ds := stored ds]> m.

End Vocabulary.

(** A start-up on which one data source is created one second after the
    wait began. *)
Definition one_second_later : World Table :=
  mkWorld 0 [1 * time.Second] 0 [] (mkTable ∅) [].

(** * A start-up, worked through *)

Module demo.

(** A serializer for the example: a JSON object of string members. *)
Definition quoted (x : string) : string :=
  String (Ascii.ascii_of_nat 34)
         (String.append x (String (Ascii.ascii_of_nat 34) EmptyString)).

Definition member (kv : string * string) : string :=
  String.append (quoted (fst kv)) (String.append ":" (quoted (snd kv))).

Definition encode (m : gmap string string) : string + string :=
  inr (String.append "{"
         (String.append (String.concat "," (map member (map_to_list m)))
                        "}")).

(** A cipher for the example: a sealed value carries the prefix [enc:]. *)
Definition unseal (v : string) : string :=
  if String.prefix "enc:" v
  then String.substring 4 (String.length v - 4)%nat v
  else v.

Definition influx : DataSource :=
  mkDataSource 1 7 "uid-influx" "influx-1" ∅ {[ "password" := "enc:p@ss" ]}.

(** A record migrated by an earlier pass that still has its payload. *)
Definition graphite : DataSource :=
  mkDataSource 2 7 "uid-graphite" "graphite-1"
               {[ "secretMigrationComplete" := JBool true ]}
               {[ "token" := "enc:t0k" ]}.

(** A record whose secrets cannot be decrypted. *)
Definition broken : DataSource :=
  mkDataSource 3 8 "uid-broken" "broken-1" ∅ {[ "password" := "garbage" ]}.

Definition service : DataSourceService :=
  mkService None
    (fun ds => if String.eqb (Name ds) "broken-1"
               then inl "cannot decrypt"%string
               else inr (unseal <$> SecureJsonData ds))
    (fun _ => None) (fun _ => None).

(** The compatibility-disable flag is enabled. *)
Definition migration : DataSourceSecretMigrationService :=
  mkMigration service
    (fun f => String.eqb f FlagDisableSecretsCompatibility).

Definition secrets : CachedKVStore Table :=
  NewCachedKVStore (mkTable ∅) (5 * time.Second) (5 * time.Minute).

Definition start : World (CachedKVStore Table) :=
  mkWorld 0 [] 0 [influx; graphite] secrets [].

Definition start_broken : World (CachedKVStore Table) :=
  mkWorld 0 [] 0 [influx; broken] secrets [].

(** The state a run leaves. *)
Definition left_by (w : World (CachedKVStore Table)) (fuel : nat)
  : World (CachedKVStore Table) :=
  match Run encode migration fuel w with
  | Some (_, w') => w'
  | None => w
  end.

(** A start-up whose capability check fails and is classified fatal. *)
Definition failing_check : UseRemoteSecretsPluginCheck unit :=
  mkCheck unit (false, Some "plugin failed to start"%string) (None, None).

Definition clean_false : UseRemoteSecretsPluginCheck unit :=
  mkCheck unit (false, None) (None, None).

Definition provide (isPluginErrorFatal : unit -> bool * error)
    (c : UseRemoteSecretsPluginCheck unit) :=
  ProvideService unit unit unit unit unit unit (fun x => x)
                 isPluginErrorFatal tt tt c tt.

End demo.

(** * Vocabulary of the statements on the user commands *)

Definition comma : Ascii.ascii := Ascii.ascii_of_nat 44.

(** The number of commas of a string. *)
Fixpoint commas (s : string) : nat :=
  match s with
  | EmptyString => O
  | String c rest =>
      (if Ascii.eqb c comma then 1 else 0)%nat + commas rest
  end.

(** The decimal numeral of an integer, as [strconv.FormatInt] at base 10
    writes it. *)
Definition numeral (z : Z) : string :=
  DecimalString.NilZero.string_of_int (Z.to_int z).

(** The values of [int64]. *)
Definition int64 (z : Z) : Prop :=
  -9223372036854775808 <= z <= 9223372036854775807.

(** The pieces parse to the numbers, one by one. *)
Definition parse_to (pieces : list string) (ids : list Z) : Prop :=
  Forall2 (fun p v => strconv.ParseInt p = inr v) pieces ids.

(** The line [Print] logs for an id with its email and its login. *)
Definition logged_line (HiYellowString : string -> string)
    (user : string * (string * string)) : commands.Output :=
  commands.Logged
    (HiYellowString
       (commands.conflictLine (fst user) (fst (snd user)) (snd (snd user)))).

(** The store answered [nil] to every call of the list, each received
    after the ones before it. *)
Definition accepted (sqlStore : commands.SQLStore)
    (received calls : list commands.StoreCall) : Prop :=
  forall before c behind,
    calls = before ++ c :: behind ->
    commands.answer sqlStore (received ++ before) c = None.

(** The error a failed call of [deDupeSameIdentification] is wrapped
    into. *)
Definition not_updated (err : commands.goerror) : commands.goerror :=
  commands.wrapError "could not update user with details " err.

(** How the loop over the other users ended with the error [e], the ids
    [asked] having been handed to [DeleteUser] after the calls [issued]
    that went before the loop: the piece that follows the ids deleted
    does not parse, or the last delete failed. *)
Definition stopped (sqlStore : commands.SQLStore)
    (received issued : list commands.StoreCall) (pieces : list string)
    (asked : list Z) (e : commands.goerror) : Prop :=
  (accepted sqlStore received
            (issued ++ map commands.CallDeleteUser asked) /\
   exists p ne,
     pieces !! length asked = Some p /\
     strconv.ParseInt p = inl ne /\
     e = commands.NumError "ParseInt" p ne) \/
  (exists asked0 v err,
     asked = asked0 ++ [v] /\
     accepted sqlStore received
              (issued ++ map commands.CallDeleteUser asked0) /\
     commands.answer sqlStore
       (received ++ issued ++ map commands.CallDeleteUser asked0)
       (commands.CallDeleteUser v) = Some err /\
     e = not_updated err).


(** * Vocabulary of the further statements on the stores *)

(** An operation of the fixed-scope view. *)
Inductive Op : Type :=
| OpGet
| OpSet (value : string)
| OpDel
| OpKeys
| OpRename (newNamespace : string).

Section Ops.
Import kvstore.
Context {S : Type} `{SecretsKVStore S}.

(** The view once the operation returned; its results are dropped. *)
Definition perform (kv : FixedKVStore S) (op : Op) : FixedKVStore S :=
  match op with
  | OpGet => snd (Fixed_Get kv)
  | OpSet value => snd (Fixed_Set kv value)
  | OpDel => snd (Fixed_Del kv)
  | OpKeys => snd (Fixed_Keys kv)
  | OpRename newNamespace => snd (Fixed_Rename kv newNamespace)
  end.

Definition performAll (kv : FixedKVStore S) (ops : list Op)
  : FixedKVStore S :=
  foldl perform kv ops.
End Ops.

(** The namespaces the operations rename to. *)
Fixpoint targets (ops : list Op) : list string :=
  match ops with
  | [] => []
  | OpRename newNamespace :: rest => newNamespace :: targets rest
  | _ :: rest => targets rest
  end.

(** The organisation and the type a call addresses, and its namespace. *)
Definition call_scope (c : Call) : Z * string :=
  match c with
  | CallGet o _ t | CallSet o _ t _ | CallDel o _ t | CallKeys o _ t
  | CallRename o _ t _ => (o, t)
  end.

Definition call_namespace (c : Call) : string :=
  match c with
  | CallGet _ n _ | CallSet _ n _ _ | CallDel _ n _ | CallKeys _ n _
  | CallRename _ n _ _ => n
  end.

(** A view on the reference backend that holds one record. *)
Definition one_record : FixedKVStore Table :=
  With (mkTable {[ (1, "a", "x")%string := "v"%string ]}) 1 "a" "x".

(** * Vocabulary of the further statements on the migration *)

Section WaitVocabulary.
Context {S : Type}.


End WaitVocabulary.

Section RunVocabulary.
Variable json_Marshal : gmap string string -> string + string.
Variable s : DataSourceSecretMigrationService.

Definition purge_events (ds : DataSource) : list Event :=
  if purges s ds then [EvDeleteDataSourceSecrets (deleteCommand ds)] else [].

(** The calls the loop body issues for a record when no call fails: as
    far as the decryption and the serialization let it go. *)
Definition attempt (ds : DataSource) : list Event :=
  if hasMigration ds then purge_events ds
  else match DecryptLegacySecrets_of (dataSourcesService s) ds with
       | inl _ => [EvDecryptLegacySecrets ds]
       | inr sec =>
           match json_Marshal sec with
           | inl _ => [EvDecryptLegacySecrets ds]
           | inr js =>
               [EvDecryptLegacySecrets ds;
                EvSet (OrgId ds) (Name ds) dataSourceSecretType js;
                EvUpdateDataSource (updateCommand ds)]
               ++ purge_events ds
           end
       end.

Definition plan (dss : list DataSource) : list Event :=
  concat (map attempt dss).

(** The event that ends the callback and the transaction. *)
Definition ending (r : error) : list Event :=
  match r with
  | None => [EvDebug "data source secret migration complete"; EvCommit]
  | Some _ => [EvRollback]
  end.

(** The call that stores the secrets of a record. *)
Definition setCall (ds : DataSource) : Call :=
  CallSet (OrgId ds) (Name ds) dataSourceSecretType
          (stored json_Marshal s ds).

Definition unmarked (ds : DataSource) : bool := negb (hasMigration ds).
End RunVocabulary.

(** A start-up of [demo] whose secrets store records its calls. *)
Definition recording : World (Recorder Table) :=
  mkWorld 0 [] 0 [demo.influx; demo.graphite]
          (mkRecorder (mkTable ∅) []) [].

(** A table whose records are migrated and carry no legacy payload. *)
Definition done_before : World Table :=
  mkWorld 0 [] 0
    [mkDataSource 2 7 "uid-graphite" "graphite-1"
                  {[ "secretMigrationComplete"%string := JBool true ]} ∅]
    (mkTable ∅) [].

(** * Inputs of the further statements *)

(** Two users whose emails and logins differ in case only. *)
Definition pair_of_users : commands.ConflictingUsers :=
  commands.mkConflictingUsers "1,2" "admin" "a@x.org,A@x.org" "admin,Admin"
                              false.

Definition three_users : commands.ConflictingUsers :=
  commands.mkConflictingUsers "7,-3,42" "ops" "o@x.org,O@x.org,o@X.org"
                              "ops,Ops,OPS" false.

(** A store that accepts every call. *)
Definition willing : commands.SQLStore :=
  commands.mkSQLStore (fun _ _ => None).

(** A terminal without colours. *)
Definition plain (text : string) : string := text.

(** * Properties of the fixed-scope view *)

Section FixedProps.
Import kvstore.
Context {S : Type} `{SecretsKVStore S}.

Lemma record_calls {A} (c : Call) (r : Recorder S) (res : A * S) :
  calls (snd (record c r res)) = calls r ++ [c].
Proof. reflexivity. Qed.

(** C8.  Over a store that records its calls, every operation of the
    view issues exactly one call, the namesake one on the bound triple,
    returns what the wrapped store returned and leaves the wrapped store
    in the state that call produced; only [Rename] changes the bound
    triple, setting the namespace to the new one when the call succeeds
    and leaving all three fields as they were when it fails. *)
Theorem FixedKVStore_delegates_once (kv : FixedKVStore (Recorder S))
    (value newNamespace : string) :
  let o := OrgId kv in
  let n := Namespace kv in
  let t := Typ kv in
  let st := inner (kvStore kv) in
  let log := calls (kvStore kv) in
  let same (kv' : FixedKVStore (Recorder S)) :=
    OrgId kv' = o /\ Namespace kv' = n /\ Typ kv' = t in
  (fst (Fixed_Get kv) = fst (Get st o n t) /\
   kvStore (snd (Fixed_Get kv))
     = mkRecorder (snd (Get st o n t)) (log ++ [CallGet o n t]) /\
   same (snd (Fixed_Get kv))) /\
  (fst (Fixed_Set kv value) = fst (Set_ st o n t value) /\
   kvStore (snd (Fixed_Set kv value))
     = mkRecorder (snd (Set_ st o n t value))
                  (log ++ [CallSet o n t value]) /\
   same (snd (Fixed_Set kv value))) /\
  (fst (Fixed_Del kv) = fst (Del st o n t) /\
   kvStore (snd (Fixed_Del kv))
     = mkRecorder (snd (Del st o n t)) (log ++ [CallDel o n t]) /\
   same (snd (Fixed_Del kv))) /\
  (fst (Fixed_Keys kv) = fst (Keys st o n t) /\
   kvStore (snd (Fixed_Keys kv))
     = mkRecorder (snd (Keys st o n t)) (log ++ [CallKeys o n t]) /\
   same (snd (Fixed_Keys kv))) /\
  (fst (Fixed_Rename kv newNamespace) = fst (Rename st o n t newNamespace) /\
   kvStore (snd (Fixed_Rename kv newNamespace))
     = mkRecorder (snd (Rename st o n t newNamespace))
                  (log ++ [CallRename o n t newNamespace]) /\
   OrgId (snd (Fixed_Rename kv newNamespace)) = o /\
   Typ (snd (Fixed_Rename kv newNamespace)) = t /\
   Namespace (snd (Fixed_Rename kv newNamespace))
     = match fst (Rename st o n t newNamespace) with
       | None => newNamespace
       | Some _ => n
       end).
Proof.
  destruct kv as [[st log] o n t]; cbn.
  repeat split.
  all: unfold Fixed_Rename; cbn.
  all: destruct (Rename st o n t newNamespace) as [[e|] st']; reflexivity.
Qed.
End FixedProps.

(** * Properties of the backend selector *)

Section SelectorProps.
Import kvstore.
Variables SqlStore SecretsService Plugin InfraKV NamespacedKVStore
          cachedDecrypted : Type.
Variable GetNamespacedKVStore : InfraKV -> NamespacedKVStore.
Variable isPluginErrorFatal : NamespacedKVStore -> bool * error.

Local Abbreviation Provide :=
  (ProvideService SqlStore SecretsService Plugin InfraKV NamespacedKVStore
                  cachedDecrypted GetNamespacedKVStore isPluginErrorFatal).
Local Abbreviation SQL :=
  (secretsKVStoreSQL SqlStore SecretsService Plugin cachedDecrypted).
Local Abbreviation PLUGIN :=
  (secretsKVStorePlugin SqlStore SecretsService Plugin cachedDecrypted).

(** C1.  [ProvideService] returns either a store and no error, or an
    error and no store.  A clean [false] of the capability check selects
    the SQL backend; a clean [true] selects the plugin backend when the
    plugin is acquired and the SQL backend, with the fallback logged,
    when it is not; an error of the capability check consults the
    persisted classification and returns an error and no store when that
    says fatal or fails itself, and the SQL backend otherwise. *)
Theorem ProvideService_outcome (sqlStore : SqlStore)
    (secretsService : SecretsService)
    (remoteCheck : UseRemoteSecretsPluginCheck Plugin) (kv : InfraKV) :
  let r := Provide sqlStore secretsService remoteCheck kv in
  let sql := decorated (SQL sqlStore secretsService ∅) in
  ((exists st, fst r = (Some st, None)) \/
   (exists e, fst r = (None, Some e))) /\
  (ShouldUseRemoteSecretsPlugin Plugin remoteCheck = (false, None) ->
   fst r = (Some sql, None)) /\
  (forall p,
     ShouldUseRemoteSecretsPlugin Plugin remoteCheck = (true, None) ->
     GetPlugin Plugin remoteCheck = (p, None) ->
     fst r = (Some (decorated (PLUGIN p secretsService)), None)) /\
  (forall p e,
     ShouldUseRemoteSecretsPlugin Plugin remoteCheck = (true, None) ->
     GetPlugin Plugin remoteCheck = (p, Some e) ->
     fst r = (Some sql, None) /\
     In (Error "plugin client was nil, falling back to SQL implementation")
        (snd r)) /\
  (forall b e isFatal err2,
     ShouldUseRemoteSecretsPlugin Plugin remoteCheck = (b, Some e) ->
     isPluginErrorFatal (GetNamespacedKVStore kv) = (isFatal, err2) ->
     (isFatal = true \/ err2 <> None ->
      fst r = (None, Some (default e err2))) /\
     (isFatal = false -> err2 = None -> fst r = (Some sql, None))).
Proof.
  unfold decorated, ProvideService.
  destruct (ShouldUseRemoteSecretsPlugin Plugin remoteCheck)
    as [usePlugin [e|]] eqn:Hcheck;
    [ destruct (isPluginErrorFatal (GetNamespacedKVStore kv))
        as [isFatal [e2|]] eqn:Hfatal; destruct isFatal
    | destruct usePlugin;
      [ destruct (GetPlugin Plugin remoteCheck) as [p [e|]] eqn:Hplugin | ] ];
    cbn.
  all: repeat split; eauto; try discriminate.
  all: intros; simplify_eq; cbn in *; try done.
  all: try (right; left; reflexivity).
  match goal with
  | Hno : false = true \/ None <> None |- _ =>
      destruct Hno as [Hno | Hno]; [discriminate Hno | by destruct Hno]
  end.
Qed.

Lemma ProvideService_decorated (sqlStore : SqlStore)
    (secretsService : SecretsService)
    (remoteCheck : UseRemoteSecretsPluginCheck Plugin) (kv : InfraKV)
    (st : CachedKVStore (Backend SqlStore SecretsService Plugin
                                 cachedDecrypted)) :
  fst (fst (Provide sqlStore secretsService remoteCheck kv)) = Some st ->
  exists b, st = decorated b.
Proof.
  unfold ProvideService, decorated.
  destruct (ShouldUseRemoteSecretsPlugin Plugin remoteCheck)
    as [usePlugin [e|]];
    [ destruct (isPluginErrorFatal (GetNamespacedKVStore kv))
        as [isFatal [e2|]]; destruct isFatal
    | destruct usePlugin;
      [ destruct (GetPlugin Plugin remoteCheck) as [p [e|]] | ] ];
    cbn; intros Hst; simplify_eq; eauto.
Qed.

(** C7, as the code has it.  Whatever its arguments, a store that
    [ProvideService] returns expires its entries after 5 seconds and
    sweeps every 5 minutes: both are the constants of the call to
    [NewCachedKVStore], whose second and third parameters they are. *)
Theorem ProvideService_cache_settings (sqlStore : SqlStore)
    (secretsService : SecretsService)
    (remoteCheck : UseRemoteSecretsPluginCheck Plugin) (kv : InfraKV)
    (st : CachedKVStore (Backend SqlStore SecretsService Plugin
                                 cachedDecrypted)) :
  fst (fst (Provide sqlStore secretsService remoteCheck kv)) = Some st ->
  defaultExpiration st = 5000000000 /\
  cleanupInterval st = 300000000000 /\
  forall (b : Backend SqlStore SecretsService Plugin cachedDecrypted)
         (ttl interval : time.Duration),
    defaultExpiration (NewCachedKVStore b ttl interval) = ttl /\
    cleanupInterval (NewCachedKVStore b ttl interval) = interval.
Proof.
  intros Hst. apply ProvideService_decorated in Hst as [b ->]. by cbn.
Qed.
End SelectorProps.

(** * Properties of the caching decorator *)

Import kvstore.

(** The reference backend keeps the contract. *)
Lemma Table_Get_contract (s : Table) o n t v ok err s' :
  True -> Get s o n t = ((v, ok, err), s') ->
  True /\ rows s' = rows s /\
  (err = None ->
   match rows s !! (o, n, t) with
   | Some x => v = x /\ ok = true
   | None => ok = false
   end).
Proof.
  intros _ Hget. cbn in Hget.
  destruct (rows s !! (o, n, t)) eqn:E; simplify_eq; rewrite ?E; auto.
Qed.

#[export] Instance Table_contract : KVContract Table.
Proof.
  refine {| kv_inv := fun _ => True; kv_view := rows;
            Get_contract := Table_Get_contract |}.
  - intros s o n t v err s' _ Hset. cbn in Hset. by simplify_eq.
  - intros s o n t err s' _ Hdel. cbn in Hdel. by simplify_eq.
  - intros s o n t r s' _ Hkeys. cbn in Hkeys. by simplify_eq.
  - intros s o n t n' err s' _ Hren. cbn in Hren. by simplify_eq.
Defined.

Section CachedProps.
Context {S : Type} `{KVContract S}.

Lemma coherent_new (st : S) (ttl interval : time.Duration) :
  kv_inv st -> coherent (NewCachedKVStore st ttl interval).
Proof. intros Hinv. split; [exact Hinv|]. intros k e. cbn. by rewrite lookup_empty. Qed.

Lemma coherent_invalidate (c : CachedKVStore S) (st : S)
    (m : gmap Key string) (gone : list Key) :
  kv_inv st ->
  kv_view st = m ->
  (forall k, k ∉ gone -> m !! k = kv_view (store c) !! k) ->
  coherent c ->
  coherent (with_cache c st (foldr delete (cache c) gone)).
Proof.
  intros Hinv Hview Hsame [_ Hc]. split; [exact Hinv|]. cbn.
  intros k e Hk. rewrite Hview.
  assert ((k ∉ gone) /\ cache c !! k = Some e) as [Hnot Hin].
  { clear -Hk. induction gone as [|g gone IH]; cbn in Hk.
    - split; [apply not_elem_of_nil | exact Hk].
    - destruct (decide (g = k)) as [->|Hne].
      + by rewrite lookup_delete_eq in Hk.
      + rewrite lookup_delete_ne in Hk by exact Hne.
        destruct (IH Hk) as [? ?]. split; [|done].
        apply not_elem_of_cons; split; [congruence | done]. }
  rewrite (Hsame k Hnot). by apply Hc.
Qed.

Lemma coherent_with_store (c : CachedKVStore S) (st : S) :
  kv_inv st -> kv_view st = kv_view (store c) ->
  coherent c -> coherent (with_store c st).
Proof.
  intros Hinv Hview [_ Hc]. split; [exact Hinv|]. cbn.
  intros k e Hk. rewrite Hview. by apply Hc.
Qed.

Lemma call_through_contract (c : CachedKVStore S) o n t v ok err c' :
  coherent c ->
  call_through c o n t = ((v, ok, err), c') ->
  coherent c' /\ kv_view (store c') = kv_view (store c) /\
  (err = None -> answers (kv_view (store c)) (o, n, t) v ok).
Proof.
  intros Hc. unfold call_through.
  destruct (Get (store c) o n t) as [[[v0 ok0] err0] st] eqn:E.
  destruct (Get_contract _ _ _ _ _ _ _ _ (proj1 Hc) E) as (Hinv & Hview & Hres).
  destruct err0 as [e|]; intros Heq; simplify_eq.
  - split; [by apply coherent_with_store|]. split; [exact Hview | done].
  - split; [|split; [exact Hview | intros _; by apply Hres]].
    split; [exact Hinv|]. cbn. intros k e Hk. rewrite Hview.
    destruct (decide ((o, n, t) = k)) as [<-|Hne].
    + rewrite lookup_insert_eq in Hk. simplify_eq. cbn. by apply Hres.
    + rewrite lookup_insert_ne in Hk by exact Hne. by apply Hc.
Qed.

Lemma Cached_Get_contract (c : CachedKVStore S) o n t v ok err c' :
  coherent c ->
  Cached_Get c o n t = ((v, ok, err), c') ->
  coherent c' /\ kv_view (store c') = kv_view (store c) /\
  (err = None -> answers (kv_view (store c)) (o, n, t) v ok).
Proof.
  intros Hc. unfold Cached_Get.
  destruct (cache c !! (o, n, t)) as [e|] eqn:Hk;
    [destruct (live (clock c) e)|]; try by apply call_through_contract.
  intros Heq; simplify_eq. split; [exact Hc|]. split; [done|].
  intros _. by apply (proj2 Hc).
Qed.

Lemma Cached_Set_contract (c : CachedKVStore S) o n t v err c' :
  coherent c ->
  Cached_Set c o n t v = (err, c') ->
  coherent c' /\
  kv_view (store c') = match err with
                       | None => <[(o, n, t) := v]> (kv_view (store c))
                       | Some _ => kv_view (store c)
                       end.
Proof.
  intros Hc. unfold Cached_Set.
  destruct (Set_ (store c) o n t v) as [err0 st] eqn:E.
  destruct (Set_contract _ _ _ _ _ _ _ (proj1 Hc) E) as (Hinv & Hview).
  destruct err0 as [e|]; intros Heq; simplify_eq.
  - split; [by apply coherent_with_store | done].
  - split; [|done].
    apply (coherent_invalidate c st _ [(o, n, t)] Hinv Hview); [|exact Hc].
    intros k Hk. apply lookup_insert_ne. set_solver.
Qed.

Lemma Cached_Del_contract (c : CachedKVStore S) o n t err c' :
  coherent c ->
  Cached_Del c o n t = (err, c') ->
  coherent c' /\
  kv_view (store c') = match err with
                       | None => delete (o, n, t) (kv_view (store c))
                       | Some _ => kv_view (store c)
                       end.
Proof.
  intros Hc. unfold Cached_Del.
  destruct (Del (store c) o n t) as [err0 st] eqn:E.
  destruct (Del_contract _ _ _ _ _ _ (proj1 Hc) E) as (Hinv & Hview).
  destruct err0 as [e|]; intros Heq; simplify_eq.
  - split; [by apply coherent_with_store | done].
  - split; [|done].
    apply (coherent_invalidate c st _ [(o, n, t)] Hinv Hview); [|exact Hc].
    intros k Hk. apply lookup_delete_ne. set_solver.
Qed.

Lemma Cached_Keys_contract (c : CachedKVStore S) o n t r c' :
  coherent c ->
  Cached_Keys c o n t = (r, c') ->
  coherent c' /\ kv_view (store c') = kv_view (store c).
Proof.
  intros Hc. unfold Cached_Keys.
  destruct (Keys (store c) o n t) as [r0 st] eqn:E.
  destruct (Keys_contract _ _ _ _ _ _ (proj1 Hc) E) as (Hinv & Hview).
  intros Heq; simplify_eq. split; [by apply coherent_with_store | done].
Qed.

Lemma rename_record_other (k k' j : Key) (m : gmap Key string) :
  j <> k -> j <> k' -> rename_record k k' m !! j = m !! j.
Proof.
  intros Hk Hk'. unfold rename_record. destruct (m !! k); [|done].
  rewrite lookup_insert_ne by congruence. by rewrite lookup_delete_ne by congruence.
Qed.

Lemma Cached_Rename_contract (c : CachedKVStore S) o n t n' err c' :
  coherent c ->
  Cached_Rename c o n t n' = (err, c') ->
  coherent c' /\
  kv_view (store c') =
    match err with
    | None => rename_record (o, n, t) (o, n', t) (kv_view (store c))
    | Some _ => kv_view (store c)
    end.
Proof.
  intros Hc. unfold Cached_Rename.
  destruct (Rename (store c) o n t n') as [err0 st] eqn:E.
  destruct (Rename_contract _ _ _ _ _ _ _ (proj1 Hc) E) as (Hinv & Hview).
  destruct err0 as [e|]; intros Heq; simplify_eq.
  - split; [by apply coherent_with_store | done].
  - split; [|done].
    apply (coherent_invalidate c st _ [(o, n', t); (o, n, t)] Hinv Hview);
      [|exact Hc].
    intros k Hk. apply rename_record_other; set_solver.
Qed.
End CachedProps.

(** The decorator keeps the contract of the store it wraps, with the
    coherence of its cache as invariant. *)
#[export] Instance Cached_contract {S} `{KVContract S}
  : KVContract (CachedKVStore S) := {
  kv_inv := coherent;
  kv_view c := kv_view (store c);
  Get_contract := Cached_Get_contract;
  Set_contract := Cached_Set_contract;
  Del_contract := Cached_Del_contract;
  Keys_contract := Cached_Keys_contract;
  Rename_contract := Cached_Rename_contract
}.

Section CachedReads.
Context {S : Type} `{KVContract S}.

Lemma Cached_Get_miss (c : CachedKVStore S) o n t :
  cache c !! (o, n, t) = None -> Cached_Get c o n t = call_through c o n t.
Proof. intros Hk. unfold Cached_Get. by rewrite Hk. Qed.

(** A read that went to the wrapped store is answered from the cache
    when repeated at once. *)
Lemma call_through_then_hit (c : CachedKVStore S) o n t v ok c' :
  0 <= defaultExpiration c ->
  call_through c o n t = ((v, ok, None), c') ->
  Cached_Get c' o n t = ((v, ok, None), c').
Proof.
  intros Httl. unfold call_through.
  destruct (Get (store c) o n t) as [[[v0 ok0] [e|]] st]; intros Heq;
    simplify_eq.
  unfold Cached_Get. cbn. rewrite lookup_insert_eq. unfold live. cbn.
  destruct (Z.leb_spec (clock c) (clock c + defaultExpiration c)); [done|lia].
Qed.

(** C2.  On the caching decorator with a coherent cache, over a store that
    keeps the contract: a read right after a successful [Set] of the same
    triple returns the value just written, and so does the next read,
    which the cache serves; a read right after a successful [Del] finds
    nothing; after a successful [Rename] to another namespace of a triple
    that held [v], a read of the old triple finds nothing and a read of
    the new triple returns [v].  A read is taken to answer when the
    wrapped store does not fail it. *)
Theorem Cached_read_after_mutation (c : CachedKVStore S) (o : Z)
    (n t : string) :
  coherent c ->
  0 <= defaultExpiration c ->
  (forall v c1 v' ok err c2,
     Cached_Set c o n t v = (None, c1) ->
     Cached_Get c1 o n t = ((v', ok, err), c2) ->
     err = None ->
     (v' = v /\ ok = true) /\
     Cached_Get c2 o n t = ((v, true, None), c2)) /\
  (forall c1 v' ok err c2,
     Cached_Del c o n t = (None, c1) ->
     Cached_Get c1 o n t = ((v', ok, err), c2) ->
     err = None -> ok = false) /\
  (forall n2 v c1 v1 ok1 err1 c2 v2 ok2 err2 c3,
     n <> n2 ->
     fst (Cached_Get c o n t) = (v, true, None) ->
     Cached_Rename c o n t n2 = (None, c1) ->
     Cached_Get c1 o n t = ((v1, ok1, err1), c2) ->
     Cached_Get c2 o n2 t = ((v2, ok2, err2), c3) ->
     (err1 = None -> ok1 = false) /\
     (err2 = None -> v2 = v /\ ok2 = true)).
Proof.
  intros Hc Httl. split; [|split].
  - intros v c1 v' ok err c2 Hset Hget ->.
    destruct (Cached_Set_contract _ _ _ _ _ _ _ Hc Hset) as [Hc1 Hview1].
    destruct (Cached_Get_contract _ _ _ _ _ _ _ _ Hc1 Hget) as (_ & _ & Hans).
    specialize (Hans eq_refl). unfold answers in Hans.
    rewrite Hview1, lookup_insert_eq in Hans. destruct Hans as [-> ->].
    split; [done|].
    assert (cache c1 !! (o, n, t) = None) as Hmiss.
    { revert Hset. unfold Cached_Set.
      destruct (Set_ (store c) o n t v) as [[e|] st]; intros Heq;
        simplify_eq. cbn. apply lookup_delete_eq. }
    rewrite (Cached_Get_miss _ _ _ _ Hmiss) in Hget.
    apply (call_through_then_hit c1); [|exact Hget].
    revert Hset. unfold Cached_Set.
    destruct (Set_ (store c) o n t v) as [[e|] st]; intros Heq;
      by simplify_eq.
  - intros c1 v' ok err c2 Hdel Hget ->.
    destruct (Cached_Del_contract _ _ _ _ _ _ Hc Hdel) as [Hc1 Hview1].
    destruct (Cached_Get_contract _ _ _ _ _ _ _ _ Hc1 Hget) as (_ & _ & Hans).
    specialize (Hans eq_refl). unfold answers in Hans.
    by rewrite Hview1, lookup_delete_eq in Hans.
  - intros n2 v c1 v1 ok1 err1 c2 v2 ok2 err2 c3 Hne Hprior Hren Hget1 Hget2.
    destruct (Cached_Get c o n t) as [[[v0 ok0] err0] c0] eqn:Hget0.
    cbn in Hprior. simplify_eq.
    destruct (Cached_Get_contract _ _ _ _ _ _ _ _ Hc Hget0) as (_ & _ & Hans0).
    specialize (Hans0 eq_refl). unfold answers in Hans0.
    destruct (kv_view (store c) !! (o, n, t)) as [x|] eqn:Hold;
      [destruct Hans0 as [-> _] | done].
    destruct (Cached_Rename_contract _ _ _ _ _ _ _ Hc Hren) as [Hc1 Hview1].
    destruct (Cached_Get_contract _ _ _ _ _ _ _ _ Hc1 Hget1)
      as (Hc2 & Hview2 & Hans1).
    destruct (Cached_Get_contract _ _ _ _ _ _ _ _ Hc2 Hget2)
      as (_ & _ & Hans2).
    unfold answers in Hans1, Hans2.
    rewrite Hview2 in Hans2. rewrite Hview1 in Hans1, Hans2.
    unfold rename_record in Hans1, Hans2. rewrite Hold in Hans1, Hans2.
    rewrite lookup_insert_eq in Hans2.
    rewrite lookup_insert_ne, lookup_delete_eq in Hans1 by congruence.
    split; [exact Hans1 | exact Hans2].
Qed.
End CachedReads.

(** * Properties of the await-provisioning phase *)

Import simplejson(JVal, JNull, JBool, JNumber, JString).
Import datasources featuremgmt migration.

Section WaitProps.
Context {S : Type} `{SecretsKVStore S}.

Lemma filter_drops (f : Z -> bool) (l : list Z) :
  existsb (fun e => negb (f e)) l = true ->
  (length (List.filter f l) < length l)%nat.
Proof.
  induction l as [|a l IH]; cbn; [discriminate|].
  pose proof (filter_length_le f l) as Hle.
  destruct (f a); cbn; [|lia].
  intros Hex. specialize (IH Hex). lia.
Qed.

Lemma notified_published (since : Z) (w : World S) :
  notified since w = true ->
  (length (pending (published w)) < length (pending w))%nat.
Proof.
  unfold notified, published. cbn. intros Hex. apply filter_drops.
  rewrite existsb_exists in *. destruct Hex as (e & Hin & He).
  exists e. split; [exact Hin|].
  apply andb_true_iff in He as [_ He]. apply Z.leb_le in He.
  apply negb_true_iff, Z.ltb_ge. exact He.
Qed.

Lemma WaitForProvisioning_unfold (fuel : nat) (w : World S) :
  WaitForProvisioning (Datatypes.S fuel) w =
    if notified (now w) (snd (time_After (5 * time.Second)
                                         (AddEventListener w)))
    then WaitForProvisioning fuel (round w)
    else Some (None, round w).
Proof. reflexivity. Qed.

Lemma WaitForProvisioning_frame (fuel : nat) (w : World S) r w' :
  WaitForProvisioning fuel w = Some (r, w') ->
  r = None /\ now w' = now w /\ db w' = db w /\
  secretsStore w' = secretsStore w /\
  exists evs, trace w' = trace w ++ evs /\ Forall waiting evs.
Proof.
  revert w. induction fuel as [|fuel IH]; intros w; [discriminate|].
  rewrite WaitForProvisioning_unfold.
  destruct (notified _ _).
  - intros Hrec. destruct (IH _ Hrec) as (-> & Hnow & Hdb & Hst & evs & Htr & Hevs).
    repeat split; try done.
    exists ([EvAddEventListener; EvTimeAfter (5 * time.Second)] ++ evs).
    split.
    + rewrite Htr. cbn. by rewrite <- !app_assoc.
    + apply Forall_app. split; [|exact Hevs]. repeat constructor.
  - intros Heq; simplify_eq. repeat split.
    exists [EvAddEventListener; EvTimeAfter (5 * time.Second)].
    split; [cbn; by rewrite <- app_assoc | repeat constructor].
Qed.

Lemma WaitForProvisioning_returns (fuel : nat) (w : World S) :
  (length (pending w) < fuel)%nat ->
  exists w', WaitForProvisioning fuel w = Some (None, w').
Proof.
  revert w. induction fuel as [|fuel IH]; intros w Hfuel; [lia|].
  rewrite WaitForProvisioning_unfold.
  destruct (notified _ _) eqn:Hwait; [|eauto].
  apply IH. apply notified_published in Hwait.
  unfold round. cbn in *. lia.
Qed.
End WaitProps.

(** * Properties of the migrate pass *)

Section MigrateFrame.
Context {S : Type} `{SecretsKVStore S}.
Variable json_Marshal : gmap string string -> string + string.
Variable s : DataSourceSecretMigrationService.

Lemma inside_refl (w : World S) : inside w w.
Proof. repeat split. exists []. by rewrite app_nil_r. Qed.

Lemma inside_trans (w1 w2 w3 : World S) :
  inside w1 w2 -> inside w2 w3 -> inside w1 w3.
Proof.
  intros (Hn & Hp & Hl & evs & Ht & Hc) (Hn' & Hp' & Hl' & evs' & Ht' & Hc').
  repeat split; try congruence.
  exists (evs ++ evs'). split; [by rewrite Ht', Ht, app_assoc|].
  by apply Forall_app.
Qed.

Lemma inside_log (w : World S) (e : Event) : calling e -> inside w (log w e).
Proof. intros He. repeat split. exists [e]. by repeat constructor. Qed.

Lemma inside_set_db (w : World S) d : inside w (set_db w d).
Proof. repeat split. exists []. by rewrite app_nil_r. Qed.

Lemma inside_set_secretsStore (w : World S) st :
  inside w (set_secretsStore w st).
Proof. repeat split. exists []. by rewrite app_nil_r. Qed.

Lemma stays_bind {A B} (m : M A) (k : A -> M (S := S) B) :
  stays m -> (forall a, stays (S := S) (k a)) -> stays (S := S) (bind m k).
Proof.
  intros Hm Hk w r w'. unfold bind.
  destruct (m w) as [[e|a] w1] eqn:E; intros Heq.
  - simplify_eq. by eapply Hm.
  - eapply inside_trans; [by eapply Hm | by eapply Hk].
Qed.

Lemma stays_ret {A} (a : A) : stays (S := S) (ret a).
Proof. intros w r w' Heq. unfold ret in Heq. simplify_eq. apply inside_refl. Qed.

Lemma stays_emit (e : Event) : calling e -> stays (S := S) (emit e).
Proof.
  intros He w r w' Heq. unfold emit in Heq. simplify_eq. by apply inside_log.
Qed.

Lemma stays_check (err : error) : stays (S := S) (check err).
Proof.
  intros w r w' Heq. unfold check in Heq.
  destruct err; simplify_eq; apply inside_refl.
Qed.

Lemma stays_lift {A} (r : string + A) : stays (S := S) (lift r).
Proof. intros w r' w' Heq. unfold lift in Heq. simplify_eq. apply inside_refl. Qed.

Lemma stays_GetDataSources : stays (S := S) (GetDataSources s).
Proof.
  unfold GetDataSources.
  apply stays_bind; [by apply stays_emit|]. intros _.
  apply stays_bind; [apply stays_check|]. intros _.
  intros w r w' Heq. simplify_eq. apply inside_refl.
Qed.

Lemma stays_DecryptLegacySecrets ds : stays (S := S) (DecryptLegacySecrets s ds).
Proof.
  unfold DecryptLegacySecrets.
  apply stays_bind; [by apply stays_emit|]. intros _. apply stays_lift.
Qed.

Lemma stays_secretsStore_Set o n t v : stays (S := S) (secretsStore_Set o n t v).
Proof.
  unfold secretsStore_Set.
  apply stays_bind; [by apply stays_emit|]. intros _.
  intros w r w' Heq.
  destruct (Set_ (secretsStore w) o n t v) as [err st].
  eapply inside_trans; [apply (inside_set_secretsStore w st)|].
  by eapply stays_check.
Qed.

Lemma stays_UpdateDataSource cmd : stays (S := S) (UpdateDataSource s cmd).
Proof.
  unfold UpdateDataSource.
  apply stays_bind; [by apply stays_emit|]. intros _.
  apply stays_bind; [apply stays_check|]. intros _.
  intros w r w' Heq. simplify_eq. apply inside_set_db.
Qed.

Lemma stays_DeleteDataSourceSecrets cmd :
  stays (S := S) (DeleteDataSourceSecrets s cmd).
Proof.
  unfold DeleteDataSourceSecrets.
  apply stays_bind; [by apply stays_emit|]. intros _.
  apply stays_bind; [apply stays_check|]. intros _.
  intros w r w' Heq. simplify_eq. apply inside_set_db.
Qed.

Lemma stays_migrateDataSource ds :
  stays (S := S) (migrateDataSource json_Marshal s ds).
Proof.
  unfold migrateDataSource.
  apply stays_bind.
  - destruct (negb (hasMigration ds)); [|apply stays_ret].
    apply stays_bind; [apply stays_DecryptLegacySecrets|]. intros sec.
    apply stays_bind; [apply stays_lift|]. intros js.
    apply stays_bind; [apply stays_secretsStore_Set|]. intros _.
    apply stays_UpdateDataSource.
  - intros _. destruct (_ && _);
      [apply stays_DeleteDataSourceSecrets | apply stays_ret].
Qed.

Lemma stays_forEach dss : stays (S := S) (forEach json_Marshal s dss).
Proof.
  induction dss as [|ds dss IH]; cbn; [apply stays_ret|].
  apply stays_bind; [apply stays_migrateDataSource | intros _; exact IH].
Qed.

Lemma stays_migrate : stays (S := S) (migrate json_Marshal s).
Proof.
  unfold migrate.
  apply stays_bind; [apply stays_GetDataSources|]. intros dss.
  apply stays_bind; [by apply stays_emit|]. intros _.
  apply stays_bind; [apply stays_forEach|]. intros _.
  by apply stays_emit.
Qed.
End MigrateFrame.

Section TransactionProps.
Context {S : Type} `{SecretsKVStore S}.

Lemma InTransaction_shape (w : World S) (callback : M unit) r w' :
  stays callback ->
  InTransaction w callback = (r, w') ->
  (exists evs, Forall calling evs /\
               trace w' = trace w ++ EvBegin :: evs ++ [closing r]) /\
  (r <> None -> db w' = db w) /\
  (forall res w2, callback (log w EvBegin) = (res, w2) ->
     r = match res with inl e => Some e | inr _ => None end /\
     secretsStore w' = secretsStore w2 /\
     (r = None -> db w' = db w2)).
Proof.
  intros Hcb. unfold InTransaction.
  destruct (callback (log w EvBegin)) as [[e|u] w2] eqn:E; intros Heq;
    simplify_eq.
  all: destruct (Hcb _ _ _ E) as (_ & _ & _ & evs & Htr & Hevs).
  all: split; [exists evs; split; [exact Hevs|]; cbn in *; rewrite Htr;
               by rewrite <- !app_assoc|].
  all: split; [done|]. all: intros res w3 Heq; by simplify_eq.
Qed.
End TransactionProps.

Section WaitClaims.
Context {S : Type} `{SecretsKVStore S}.
Variable json_Marshal : gmap string string -> string + string.
Variable s : DataSourceSecretMigrationService.

(** C10.  Whenever [WaitForProvisioning] returns, it returns [nil]; it
    returns as soon as the fuel exceeds the number of events still to
    be published; and [Run], which drops that result, then runs
    [InTransaction] on the state the wait left: the transaction is begun
    in every such run. *)
Theorem WaitForProvisioning_nil_then_transaction (fuel : nat)
    (w : World S) :
  (forall r w', WaitForProvisioning fuel w = Some (r, w') -> r = None) /\
  ((length (pending w) < fuel)%nat ->
   exists w1 r w',
     WaitForProvisioning fuel w = Some (None, w1) /\
     Run json_Marshal s fuel w = Some (r, w') /\
     (r, w') = InTransaction w1 (migrate json_Marshal s) /\
     exists evs, trace w' = trace w1 ++ EvBegin :: evs).
Proof.
  split.
  - intros r w' Hwait. by destruct (WaitForProvisioning_frame _ _ _ _ Hwait).
  - intros Hfuel.
    destruct (WaitForProvisioning_returns fuel w Hfuel) as [w1 Hw1].
    destruct (InTransaction w1 (migrate json_Marshal s)) as [r w'] eqn:Htx.
    exists w1, r, w'. split; [exact Hw1|]. unfold Run. rewrite Hw1, Htx.
    split; [done|]. split; [done|].
    destruct (InTransaction_shape _ _ _ _ (stays_migrate json_Marshal s) Htx)
      as [(evs & _ & Htr) _].
    eauto.
Qed.
End WaitClaims.

(** C6, on the code.  The state [one_second_later] has an event due one
    second after the call.  [WaitForProvisioning] registers the listener
    and starts the timer, then returns at once: the clock has not moved,
    the event is still to come and was never looked for.  Waiting the
    interval before looking, as [WaitForProvisioning_spec] does, sees the
    event, repeats, and returns ten seconds later. *)
Theorem WaitForProvisioning_does_not_wait :
  WaitForProvisioning 1 one_second_later =
    Some (None,
          mkWorld 0 [1 * time.Second] 1 [] (mkTable ∅)
                  [EvAddEventListener; EvTimeAfter (5 * time.Second)]) /\
  WaitForProvisioning_spec 2 one_second_later =
    Some (None,
          mkWorld (10 * time.Second) [] 2 [] (mkTable ∅)
                  [EvAddEventListener; EvTimeAfter (5 * time.Second);
                   EvAddEventListener; EvTimeAfter (5 * time.Second)]).
Proof. split; reflexivity. Qed.

Section MigrateSteps.
Context {S : Type} `{SecretsKVStore S}.
Variable json_Marshal : gmap string string -> string + string.
Variable s : DataSourceSecretMigrationService.

Lemma bind_ok {A B} (m : M A) (k : A -> M (S := S) B) w b w' :
  bind m k w = (inr b, w') ->
  exists a w1, m w = (inr a, w1) /\ k a w1 = (inr b, w').
Proof.
  unfold bind. destruct (m w) as [[e|a] w1]; intros Heq; [discriminate Heq|].
  by exists a, w1.
Qed.

Lemma bind_fails {A B} (m : M A) (k : A -> M (S := S) B) w e w' :
  bind m k w = (inl e, w') ->
  m w = (inl e, w') \/
  exists a w1, m w = (inr a, w1) /\ k a w1 = (inl e, w').
Proof.
  unfold bind. destruct (m w) as [[e0|a] w1]; intros Heq.
  - left. by simplify_eq.
  - right. by exists a, w1.
Qed.

Lemma migrateDataSource_halves (ds : DataSource) :
  migrateDataSource json_Marshal s ds =
    ((if negb (hasMigration ds) then moveSecrets json_Marshal s ds else ret tt) >>
     purgeLegacy s ds).
Proof. reflexivity. Qed.

Lemma moveSecrets_ok (ds : DataSource) (w w' : World S) :
  moveSecrets json_Marshal s ds w = (inr tt, w') ->
  exists sec js st,
    DecryptLegacySecrets_of (dataSourcesService s) ds = inr sec /\
    json_Marshal sec = inr js /\
    Set_ (secretsStore w) (OrgId ds) (Name ds) dataSourceSecretType js
      = (None, st) /\
    UpdateDataSource_fails (dataSourcesService s) (updateCommand ds) = None /\
    w' = moved ds js st w.
Proof.
  unfold moveSecrets, DecryptLegacySecrets, secretsStore_Set,
    UpdateDataSource, bind, emit, lift, check. cbn.
  destruct (DecryptLegacySecrets_of _ ds) as [e|sec] eqn:Hdec;
    [discriminate|].
  destruct (json_Marshal sec) as [e|js] eqn:Hjs; [discriminate|].
  destruct (Set_ (secretsStore w) _ _ _ js) as [[e|] st] eqn:Hset;
    [discriminate|].
  destruct (UpdateDataSource_fails _ _) as [e|] eqn:Hupd; [discriminate|].
  intros Heq; simplify_eq. exists sec, js, st.
  do 4 (split; [done|]).
  unfold moved, log, set_db, set_secretsStore. cbn. by rewrite <- !app_assoc.
Qed.

Lemma purgeLegacy_ok (ds : DataSource) (w w' : World S) :
  purgeLegacy s ds w = (inr tt, w') ->
  if purges s ds
  then DeleteDataSourceSecrets_fails (dataSourcesService s)
         (deleteCommand ds) = None /\ w' = purged ds w
  else w' = w.
Proof.
  unfold purgeLegacy. destruct (purges s ds).
  - unfold DeleteDataSourceSecrets, bind, emit, check, ret. cbn.
    destruct (DeleteDataSourceSecrets_fails _ _) as [e|]; cbn;
      [intros Heq; discriminate Heq|].
    intros Heq; by simplify_eq.
  - unfold ret. intros Heq; by simplify_eq.
Qed.

(** What a record that migrated without error went through. *)
Lemma migrateDataSource_ok (ds : DataSource) (w w' : World S) :
  migrateDataSource json_Marshal s ds w = (inr tt, w') ->
  exists w1,
    (if hasMigration ds then w1 = w
     else exists sec js st,
         DecryptLegacySecrets_of (dataSourcesService s) ds = inr sec /\
         json_Marshal sec = inr js /\
         Set_ (secretsStore w) (OrgId ds) (Name ds) dataSourceSecretType js
           = (None, st) /\
         w1 = moved ds js st w) /\
    (if purges s ds then w' = purged ds w1 else w' = w1).
Proof.
  rewrite migrateDataSource_halves. intros Hrun.
  apply bind_ok in Hrun as ([] & w1 & Hm & Hp).
  exists w1. split.
  - destruct (hasMigration ds); unfold negb in Hm.
    + unfold ret in Hm. by simplify_eq.
    + apply moveSecrets_ok in Hm as (sec & js & st & ? & ? & ? & ? & ?).
      by exists sec, js, st.
  - apply purgeLegacy_ok in Hp. destruct (purges s ds); tauto.
Qed.
End MigrateSteps.

Section MigrateAbort.
Context {S : Type} `{SecretsKVStore S}.
Variable json_Marshal : gmap string string -> string + string.
Variable s : DataSourceSecretMigrationService.

Local Abbreviation service := (dataSourcesService s).

Lemma purgeLegacy_fails (ds : DataSource) (w : World S) (e : string) :
  purges s ds = true ->
  DeleteDataSourceSecrets_fails service (deleteCommand ds) = Some e ->
  fst (purgeLegacy s ds w) = inl e.
Proof.
  intros Hp Hdel. unfold purgeLegacy, DeleteDataSourceSecrets, bind, emit,
    check. by rewrite Hp, Hdel.
Qed.

Lemma StepFails_migrateDataSource (ds : DataSource) (w : World S) e :
  StepFails json_Marshal s ds w e -> fst (migrateDataSource json_Marshal s ds w) = inl e.
Proof.
  rewrite migrateDataSource_halves.
  intros [Hhas Hdec | sec Hhas Hdec Hjs | sec js st Hhas Hdec Hjs Hset
         | sec js st Hhas Hdec Hjs Hset Hupd | Hmoved Hp Hdel].
  1-4: unfold bind at 1; rewrite Hhas; unfold negb, moveSecrets,
         DecryptLegacySecrets, secretsStore_Set, UpdateDataSource, bind,
         emit, lift, check; rewrite Hdec; cbn; rewrite ?Hjs; cbn;
         rewrite ?Hset; cbn; rewrite ?Hupd; reflexivity.
  unfold bind at 1. destruct Hmoved as [Hhas | (sec & js & st & Hdec & Hjs & Hset & Hupd)].
  - rewrite Hhas. unfold negb, ret. by apply purgeLegacy_fails.
  - destruct (hasMigration ds); unfold negb, ret;
      [by apply purgeLegacy_fails|].
    unfold moveSecrets, DecryptLegacySecrets, secretsStore_Set,
      UpdateDataSource, bind, emit, lift, check.
    rewrite Hdec; cbn. rewrite Hjs; cbn. rewrite Hset; cbn. rewrite Hupd.
    by apply purgeLegacy_fails.
Qed.

Lemma forEach_app (pre rest : list DataSource) (w : World S) :
  forEach json_Marshal s (pre ++ rest) w =
    match forEach json_Marshal s pre w with
    | (inl e, w1) => (inl e, w1)
    | (inr _, w1) => forEach json_Marshal s rest w1
    end.
Proof.
  revert w. induction pre as [|d pre IH]; intros w; [reflexivity|].
  cbn. unfold bind.
  destruct (migrateDataSource json_Marshal s d w) as [[e|u] w1];
    [reflexivity | apply IH].
Qed.

Lemma migrate_listed (w : World S) :
  GetDataSources_fails service = None ->
  migrate json_Marshal s (log w EvBegin) =
    (forEach json_Marshal s (db w) >>
     emit (EvDebug "data source secret migration complete")) (listed w).
Proof.
  intros Hlist. unfold migrate, GetDataSources, bind, emit, check.
  by rewrite Hlist.
Qed.

(** C4.  The pass runs in one transaction: whenever [Run] returns an
    error, the data-source table is as it was before the run, and what
    the run did lies between one begin and one rollback.  An error of the
    listing, and an error of any step of any record (decrypt, serialize,
    [Set], update, delete) after the records before it migrated, makes
    [Run] return that error. *)
Theorem Run_aborts_as_one (fuel : nat) (w w1 : World S) :
  WaitForProvisioning fuel w = Some (None, w1) ->
  (forall e w', Run json_Marshal s fuel w = Some (Some e, w') ->
     db w' = db w /\
     exists evs, Forall calling evs /\
                 trace w' = trace w1 ++ EvBegin :: evs ++ [EvRollback]) /\
  (forall e, GetDataSources_fails service = Some e ->
     exists w', Run json_Marshal s fuel w = Some (Some e, w')) /\
  (forall pre ds post wk e,
     GetDataSources_fails service = None ->
     db w = pre ++ ds :: post ->
     forEach json_Marshal s pre (listed w1) = (inr tt, wk) ->
     StepFails json_Marshal s ds wk e ->
     exists w', Run json_Marshal s fuel w = Some (Some e, w')).
Proof.
  intros Hwait.
  destruct (WaitForProvisioning_frame _ _ _ _ Hwait) as (_ & _ & Hdb & _).
  unfold Run. rewrite Hwait. split; [|split].
  - intros e w' Heq. simplify_eq.
    destruct (InTransaction w1 (migrate json_Marshal s)) as [r w2] eqn:Htx.
    simplify_eq.
    destruct (InTransaction_shape _ _ _ _ (stays_migrate json_Marshal s) Htx)
      as ((evs & Hevs & Htr) & Hback & _).
    split; [rewrite <- Hdb; by apply Hback|]. by exists evs.
  - intros e Hlist. unfold InTransaction, migrate, GetDataSources, bind,
      emit, check. rewrite Hlist. eauto.
  - intros pre ds post wk e Hlist Hrows Hpre Hstep.
    apply StepFails_migrateDataSource in Hstep.
    unfold InTransaction. rewrite (migrate_listed _ Hlist).
    unfold bind at 1. rewrite Hdb, Hrows, forEach_app, Hpre. cbn.
    unfold bind at 1.
    destruct (migrateDataSource json_Marshal s ds wk) as [[e'|u] w2];
      cbn in Hstep; simplify_eq. eauto.
Qed.
End MigrateAbort.

Section MigrateTrace.
Context {S : Type} `{SecretsKVStore S}.
Variable json_Marshal : gmap string string -> string + string.
Variable s : DataSourceSecretMigrationService.

Local Abbreviation service := (dataSourcesService s).

Lemma migrateDataSource_effect (ds : DataSource) (w w' : World S) :
  migrateDataSource json_Marshal s ds w = (inr tt, w') ->
  trace w' = trace w ++ record_events json_Marshal s ds /\
  db w' = map (step_row s ds) (db w) /\
  (hasMigration ds = true -> secretsStore w' = secretsStore w) /\
  (hasMigration ds = false ->
   exists sec js,
     DecryptLegacySecrets_of service ds = inr sec /\
     json_Marshal sec = inr js /\
     Set_ (secretsStore w) (OrgId ds) (Name ds) dataSourceSecretType js
       = (None, secretsStore w')).
Proof.
  intros Hrun. apply migrateDataSource_ok in Hrun as (w1 & Hmove & Hpurge).
  unfold record_events, step_row, move_events.
  destruct (hasMigration ds).
  - subst w1. destruct (purges s ds); subst w'; cbn.
    + split; [done|]. split; [done|]. split; [done | discriminate].
    + rewrite app_nil_r. split; [done|].
      split; [by rewrite map_id | split; [done | discriminate]].
  - destruct Hmove as (sec & js & st & Hdec & Hjs & Hset & ->).
    rewrite Hdec, Hjs.
    destruct (purges s ds); subst w'; cbn.
    + split; [by rewrite <- app_assoc|].
      split; [unfold clear_rows, update_rows; by rewrite map_map|].
      split; [discriminate | intros _; by exists sec, js].
    + split; [by rewrite ?app_nil_r|].
      split; [done|]. split; [discriminate | intros _; by exists sec, js].
Qed.

Lemma forEach_effect (dss : list DataSource) (w w' : World S) :
  forEach json_Marshal s dss w = (inr tt, w') ->
  trace w' = trace w ++ concat (map (record_events json_Marshal s) dss) /\
  db w' = foldl (fun rows ds => map (step_row s ds) rows) (db w) dss.
Proof.
  revert w. induction dss as [|ds dss IH]; intros w; cbn.
  - unfold ret. intros Heq; simplify_eq. by rewrite app_nil_r.
  - intros Hrun. apply bind_ok in Hrun as ([] & w1 & Hds & Hrest).
    apply migrateDataSource_effect in Hds as (Htr & Hdb & _).
    destruct (IH _ Hrest) as [Htr' Hdb'].
    rewrite Htr', Htr, Hdb', Hdb. by rewrite <- app_assoc.
Qed.
End MigrateTrace.

Section Rows.
Variable s : DataSourceSecretMigrationService.

Lemma tracks_refl (r : DataSource) : tracks r r.
Proof. unfold tracks. tauto. Qed.

Lemma tracks_trans (a b c : DataSource) :
  tracks a b -> tracks b c -> tracks a c.
Proof.
  unfold tracks. intros (? & ? & ? & ? & ? & Hb) (? & ? & ? & ? & ? & Hc).
  repeat split; try congruence; [tauto|].
  destruct Hb as [Hb|Hb], Hc as [Hc|Hc]; rewrite ?Hc, ?Hb; auto.
Qed.

Lemma hasMigration_marked (r : DataSource) (j : simplejson.Json) :
  hasMigration
    (with_JsonData r (simplejson.Set_ j marker (JBool true))) = true.
Proof.
  unfold hasMigration, simplejson.Get, simplejson.Set_, marker. cbn.
  by rewrite lookup_insert_eq.
Qed.

Lemma update_row_tracks (ds r : DataSource) :
  tracks r (update_row (updateCommand ds) r).
Proof.
  unfold update_row. destruct (_ && _); [|apply tracks_refl].
  unfold tracks. cbn. repeat split; auto.
  intros _. apply hasMigration_marked.
Qed.

Lemma clear_row_tracks (ds r : DataSource) :
  tracks r (clear_row (deleteCommand ds) r).
Proof.
  unfold clear_row. destruct (_ && _); [|apply tracks_refl].
  unfold tracks. cbn. repeat split; auto.
Qed.

Lemma step_row_tracks (ds r : DataSource) : tracks r (step_row s ds r).
Proof.
  unfold step_row.
  destruct (hasMigration ds), (purges s ds);
    eauto using tracks_refl, tracks_trans, update_row_tracks,
      clear_row_tracks.
Qed.

Lemma settled_tracks (r r' : DataSource) :
  settled s r -> tracks r r' -> settled s r'.
Proof.
  unfold settled, tracks. intros [Hm Hp] (_ & _ & _ & _ & Hm' & Hs).
  split; [auto|]. intros Hf. destruct Hs as [-> | ->]; auto.
Qed.

Lemma step_row_settles (ds r : DataSource) :
  tracks ds r -> settled s (step_row s ds r).
Proof.
  intros (Hid & Horg & Huid & _ & Hm & Hs). unfold settled, step_row.
  assert (hasMigration
            (if hasMigration ds then r
             else update_row (updateCommand ds) r) = true) as Hmarked.
  { destruct (hasMigration ds); [auto|].
    unfold update_row, updateCommand. cbn.
    rewrite Hid, Horg, !Z.eqb_refl. cbn. apply hasMigration_marked. }
  assert (SecureJsonData
            (if hasMigration ds then r
             else update_row (updateCommand ds) r) = SecureJsonData r)
    as Hkept.
  { destruct (hasMigration ds); [done|].
    unfold update_row. by destruct (_ && _). }
  assert (Id (if hasMigration ds then r
              else update_row (updateCommand ds) r) = Id ds /\
          OrgId (if hasMigration ds then r
                 else update_row (updateCommand ds) r) = OrgId ds /\
          Uid (if hasMigration ds then r
               else update_row (updateCommand ds) r) = Uid ds)
    as (Hid' & Horg' & Huid').
  { destruct (hasMigration ds); [done|].
    unfold update_row. by destruct (_ && _). }
  set (r1 := if hasMigration ds then r else update_row (updateCommand ds) r)
    in *.
  unfold purges. fold (flag s).
  destruct (flag s); cbn.
  - destruct (0 <? Z.of_nat (size (SecureJsonData ds))) eqn:Hsize.
    + unfold clear_row, deleteCommand. cbn.
      rewrite Hid', Horg', Huid', !Z.eqb_refl, String.eqb_refl. cbn.
      split; [exact Hmarked | done].
    + split; [exact Hmarked|]. intros _. rewrite Hkept.
      apply Z.ltb_ge in Hsize.
      assert (SecureJsonData ds = ∅) as Hempty
        by (apply map_size_empty_inv; lia).
      destruct Hs as [-> | ->]; done.
  - split; [exact Hmarked | discriminate].
Qed.

Lemma Forall2_tracks_map (f : DataSource -> DataSource)
    (dss rows : list DataSource) :
  (forall r, tracks r (f r)) ->
  Forall2 tracks dss rows -> Forall2 tracks dss (map f rows).
Proof.
  intros Hf. induction 1 as [|d r dss rows Hd _ IH]; cbn; constructor;
    eauto using tracks_trans.
Qed.

Lemma Forall2_tracks_refl (rows : list DataSource) :
  Forall2 tracks rows rows.
Proof. induction rows; constructor; auto using tracks_refl. Qed.

Lemma after_tracks (dss rows0 rows : list DataSource) :
  Forall2 tracks rows0 rows -> Forall2 tracks rows0 (after s dss rows).
Proof.
  revert rows. induction dss as [|d dss IH]; intros rows Hrows; cbn;
    [done|].
  apply IH. apply Forall2_tracks_map; [apply step_row_tracks | done].
Qed.

Lemma after_settles (dss front back : list DataSource) :
  Forall (settled s) front ->
  Forall2 tracks dss back ->
  Forall (settled s) (after s dss (front ++ back)).
Proof.
  revert front back. induction dss as [|d dss IH]; intros front back Hfront;
    inversion 1 as [|? r ? back' Hd Hrest]; subst; cbn.
  - by rewrite app_nil_r.
  - rewrite map_app. cbn.
    change (step_row s d r :: map (step_row s d) back')
      with ([step_row s d r] ++ map (step_row s d) back').
    rewrite app_assoc. apply IH.
    + apply Forall_app. split.
      * clear -Hfront. induction Hfront; cbn; constructor;
          eauto using settled_tracks, step_row_tracks.
      * constructor; [by apply step_row_settles | constructor].
    + apply Forall2_tracks_map; [apply step_row_tracks | done].
Qed.

Lemma after_all_settled (rows : list DataSource) :
  Forall (settled s) (after s rows rows).
Proof.
  apply (after_settles rows [] rows); [constructor|].
  apply Forall2_tracks_refl.
Qed.
End Rows.

Section MigrateTwice.
Context {S : Type} `{SecretsKVStore S}.
Variable json_Marshal : gmap string string -> string + string.

(** What a successful run is made of. *)
Lemma Run_ok (s : DataSourceSecretMigrationService) (fuel : nat)
    (w w' : World S) :
  Run json_Marshal s fuel w = Some (None, w') ->
  exists w1 w2,
    WaitForProvisioning fuel w = Some (None, w1) /\
    GetDataSources_fails (dataSourcesService s) = None /\
    forEach json_Marshal s (db w) (listed w1) = (inr tt, w2) /\
    w' = log (log w2 (EvDebug "data source secret migration complete"))
             EvCommit.
Proof.
  unfold Run.
  destruct (WaitForProvisioning fuel w) as [[r w1]|] eqn:Hwait;
    [|discriminate].
  destruct (WaitForProvisioning_frame _ _ _ _ Hwait) as (-> & _ & Hdb & _).
  unfold InTransaction.
  destruct (GetDataSources_fails (dataSourcesService s)) as [e|] eqn:Hlist.
  - unfold migrate, GetDataSources, bind, emit, check. rewrite Hlist.
    intros Heq; discriminate Heq.
  - rewrite (migrate_listed _ _ _ Hlist). unfold bind at 1. rewrite Hdb.
    destruct (forEach json_Marshal s (db w) (listed w1)) as [[e|[]] w2]
      eqn:Hloop; [intros Heq; discriminate Heq|].
    unfold emit. intros Heq; simplify_eq. by exists w1, w2.
Qed.

Lemma Run_ok_effect (s : DataSourceSecretMigrationService) (fuel : nat)
    (w w' : World S) :
  Run json_Marshal s fuel w = Some (None, w') ->
  exists w1,
    WaitForProvisioning fuel w = Some (None, w1) /\
    trace w' = trace w1 ++
      [EvBegin; EvGetDataSources;
       EvDebug "starting data source secret migration"] ++
      concat (map (record_events json_Marshal s) (db w)) ++
      [EvDebug "data source secret migration complete"; EvCommit] /\
    db w' = after s (db w) (db w) /\
    Forall (settled s) (db w').
Proof.
  intros Hrun. apply Run_ok in Hrun as (w1 & w2 & Hwait & _ & Hloop & ->).
  destruct (WaitForProvisioning_frame _ _ _ _ Hwait) as (_ & _ & Hdb & _).
  apply forEach_effect in Hloop as [Htr Hrows]. cbn in Htr, Hrows.
  exists w1. split; [done|]. cbn. rewrite Htr, Hrows, Hdb.
  split; [by rewrite <- !app_assoc|].
  split; [done | apply after_all_settled].
Qed.

Lemma quietly_refl (w : World S) : quietly w w.
Proof. repeat split. exists []. by rewrite app_nil_r. Qed.

Lemma quietly_trans (w1 w2 w3 : World S) :
  quietly w1 w2 -> quietly w2 w3 -> quietly w1 w3.
Proof.
  intros (Hs & Hj & evs & Ht & Hq) (Hs' & Hj' & evs' & Ht' & Hq').
  repeat split; try congruence.
  exists (evs ++ evs'). split; [by rewrite Ht', Ht, app_assoc|].
  by apply Forall_app.
Qed.

Lemma quietly_log (w : World S) (e : Event) : quiet e -> quietly w (log w e).
Proof. intros He. repeat split. exists [e]. by repeat constructor. Qed.

Lemma clear_rows_JsonData cmd (rows : list DataSource) :
  map JsonData (clear_rows cmd rows) = map JsonData rows.
Proof.
  unfold clear_rows. rewrite map_map. apply map_ext.
  intros r. by destruct (_ && _).
Qed.

Lemma purgeLegacy_quietly (s : DataSourceSecretMigrationService)
    (ds : DataSource) (w : World S) r w' :
  purgeLegacy s ds w = (r, w') -> quietly w w'.
Proof.
  unfold purgeLegacy, DeleteDataSourceSecrets, bind, emit, check, ret.
  destruct (purges s ds); [|intros Heq; simplify_eq; apply quietly_refl].
  destruct (DeleteDataSourceSecrets_fails _ _); cbn; intros Heq;
    simplify_eq.
  - by apply quietly_log.
  - apply (quietly_trans _
             (log w (EvDeleteDataSourceSecrets (deleteCommand ds))));
      [by apply quietly_log|].
    repeat split;
      [exact (clear_rows_JsonData (deleteCommand ds) (db w))|].
    exists []. by rewrite app_nil_r.
Qed.

Lemma forEach_quietly (s : DataSourceSecretMigrationService)
    (dss : list DataSource) (w : World S) r w' :
  Forall (fun ds => hasMigration ds = true) dss ->
  forEach json_Marshal s dss w = (r, w') -> quietly w w'.
Proof.
  intros Hdss. revert w. induction Hdss as [|ds dss Hds _ IH]; intros w.
  - cbn. unfold ret. intros Heq; simplify_eq. apply quietly_refl.
  - cbn. rewrite migrateDataSource_halves, Hds. unfold negb.
    unfold bind at 1 2. cbn.
    destruct (purgeLegacy s ds w) as [[e|u] w1] eqn:Hp; intros Heq.
    + simplify_eq. by eapply purgeLegacy_quietly.
    + eapply quietly_trans; [by eapply purgeLegacy_quietly | by eapply IH].
Qed.

Lemma Run_again_quietly (s : DataSourceSecretMigrationService)
    (fuel : nat) (w : World S) r w' :
  Forall (fun ds => hasMigration ds = true) (db w) ->
  Run json_Marshal s fuel w = Some (r, w') -> quietly w w'.
Proof.
  intros Hmarked. unfold Run.
  destruct (WaitForProvisioning fuel w) as [[r1 w1]|] eqn:Hwait;
    [|discriminate].
  destruct (WaitForProvisioning_frame _ _ _ _ Hwait)
    as (_ & _ & Hdb & Hst & evs & Htr & Hevs).
  assert (quietly w w1) as Hw1.
  { repeat split; [done | by rewrite Hdb |].
    exists evs. split; [done|].
    eapply Forall_impl; [exact Hevs|]. by intros []. }
  intros Heq. simplify_eq. eapply quietly_trans; [exact Hw1|].
  unfold InTransaction in *.
  destruct (GetDataSources_fails (dataSourcesService s)) as [e|] eqn:Hlist.
  - revert Heq. unfold migrate, GetDataSources, bind, emit, check.
    rewrite Hlist. intros Heq; simplify_eq.
    repeat split.
    exists [EvBegin; EvGetDataSources; EvRollback]. cbn.
    split; [by rewrite <- !app_assoc | by repeat constructor].
  - rewrite (migrate_listed _ _ _ Hlist) in Heq. unfold bind at 1 in Heq.
    assert (quietly w1 (listed w1)) as Hlisted.
    { repeat split.
      exists [EvBegin; EvGetDataSources;
              EvDebug "starting data source secret migration"]. cbn.
      split; [by rewrite <- !app_assoc | by repeat constructor]. }
    rewrite <- Hdb in Hmarked.
    destruct (forEach json_Marshal s (db w1) (listed w1)) as [[e|u] w2]
      eqn:Hloop;
      pose proof (forEach_quietly _ _ _ _ _ Hmarked Hloop) as Hq;
      pose proof (quietly_trans _ _ _ Hlisted Hq)
        as (Hs2 & Hj2 & evs2 & Htr2 & Hevs2).
    + simplify_eq. repeat split; [done|].
      exists (evs2 ++ [EvRollback]). cbn. rewrite Htr2.
      split; [by rewrite <- app_assoc|].
      apply Forall_app. split; [done | by repeat constructor].
    + unfold emit in Heq. simplify_eq. repeat split; [done | done |].
      exists (evs2 ++ [EvDebug "data source secret migration complete";
                       EvCommit]). cbn. rewrite Htr2.
      split; [by rewrite <- !app_assoc|].
      apply Forall_app. split; [done | by repeat constructor].
Qed.

(** C3, as the code has it.  After a pass that returned without error,
    every row carries the completion marker; a second pass, whatever its
    service answers and however it ends, leaves the secrets store and
    the settings blobs, markers included, exactly as the first pass left
    them, and issues no decrypt, no [Set] and no update: for records
    already marked these steps are skipped.  After a pass that failed
    the markers are not there, and the second pass is not such a
    one. *)
Theorem Run_twice_as_once (s1 s2 : DataSourceSecretMigrationService)
    (fuel1 fuel2 : nat) (w w1 w2 : World S) (r2 : error) :
  Run json_Marshal s1 fuel1 w = Some (None, w1) ->
  Run json_Marshal s2 fuel2 w1 = Some (r2, w2) ->
  Forall (fun ds => hasMigration ds = true) (db w1) /\
  secretsStore w2 = secretsStore w1 /\
  map JsonData (db w2) = map JsonData (db w1) /\
  map hasMigration (db w2) = map hasMigration (db w1) /\
  exists evs, trace w2 = trace w1 ++ evs /\ Forall quiet evs.
Proof.
  intros Hfirst Hsecond.
  apply Run_ok_effect in Hfirst as (_ & _ & _ & _ & Hsettled).
  assert (Forall (fun ds => hasMigration ds = true) (db w1)) as Hmarked.
  { eapply Forall_impl; [exact Hsettled|]. by intros ds [? _]. }
  destruct (Run_again_quietly _ _ _ _ _ Hmarked Hsecond) as (Hs & Hj & Hevs).
  repeat split; try done.
  assert (forall l : list DataSource,
            map hasMigration l =
            map (fun j => fst (simplejson.Bool
                                 (simplejson.Get j "secretMigrationComplete")))
                (map JsonData l)) as Hvia
    by (intros l; by rewrite map_map).
  by rewrite !Hvia, Hj.
Qed.
End MigrateTwice.

Section MigrateRecords.
Context {S : Type} `{SecretsKVStore S}.
Variable json_Marshal : gmap string string -> string + string.
Variable s : DataSourceSecretMigrationService.

Local Abbreviation service := (dataSourcesService s).

Lemma forEach_moves (dss : list DataSource) (w w' : World S) :
  forEach json_Marshal s dss w = (inr tt, w') ->
  forall ds, In ds dss -> hasMigration ds = false ->
    exists sec js,
      DecryptLegacySecrets_of service ds = inr sec /\
      json_Marshal sec = inr js.
Proof.
  revert w. induction dss as [|d dss IH]; intros w Hrun ds; [intros []|].
  cbn in Hrun. apply bind_ok in Hrun as ([] & w1 & Hd & Hrest).
  intros [-> | Hin] Hun; [|by eapply IH].
  apply migrateDataSource_effect in Hd as (_ & _ & _ & Hmove).
  destruct (Hmove Hun) as (sec & js & ? & ? & _). by exists sec, js.
Qed.

Lemma hasMigration_false (ds : DataSource) :
  JsonData ds !! marker <> Some (JBool true) <-> hasMigration ds = false.
Proof.
  unfold hasMigration, simplejson.Get, simplejson.Bool, marker.
  destruct (JsonData ds !! "secretMigrationComplete") as [[|[]| |]|];
    cbn; split; congruence.
Qed.

Lemma migrateDataSource_decrypts_first (ds : DataSource) (w : World S) :
  hasMigration ds = false ->
  exists evs,
    trace (snd (migrateDataSource json_Marshal s ds w))
    = trace w ++ EvDecryptLegacySecrets ds :: evs.
Proof.
  intros Hun.
  set (rest :=
         (let* jsonData :=
            (let* secureJsonData :=
               lift (DecryptLegacySecrets_of service ds) in
             lift (json_Marshal secureJsonData)) in
          secretsStore_Set (OrgId ds) (Name ds) dataSourceSecretType
                           jsonData >>
          UpdateDataSource s (updateCommand ds)) >>
         purgeLegacy s ds : M (S := S) unit).
  assert (migrateDataSource json_Marshal s ds w
          = rest (log w (EvDecryptLegacySecrets ds))) as ->.
  { rewrite migrateDataSource_halves. unfold rest, moveSecrets,
      DecryptLegacySecrets, bind, emit, lift. rewrite Hun. cbn.
    by destruct (DecryptLegacySecrets_of service ds). }
  assert (stays rest) as Hrest.
  { unfold rest. apply stays_bind; [|intros _].
    - apply stays_bind; [|intros js].
      + apply stays_bind; [apply stays_lift | intros sec; apply stays_lift].
      + apply stays_bind; [apply stays_secretsStore_Set | intros _].
        apply stays_UpdateDataSource.
    - unfold purgeLegacy. destruct (purges s ds);
        [apply stays_DeleteDataSourceSecrets | apply stays_ret]. }
  destruct (rest (log w (EvDecryptLegacySecrets ds))) as [r w'] eqn:Hrun.
  destruct (Hrest _ _ _ Hrun) as (_ & _ & _ & evs & Htr & _).
  exists evs. cbn in *. by rewrite Htr, <- app_assoc.
Qed.
End MigrateRecords.

Section MigrateStore.
Context {S : Type} `{KVContract S}.
Variable json_Marshal : gmap string string -> string + string.
Variable s : DataSourceSecretMigrationService.

Local Abbreviation service := (dataSourcesService s).

Lemma migrateDataSource_store (ds : DataSource) (w w' : World S) :
  migrateDataSource json_Marshal s ds w = (inr tt, w') ->
  kv_inv (secretsStore w) ->
  kv_inv (secretsStore w') /\
  kv_view (secretsStore w') = keep json_Marshal s (kv_view (secretsStore w)) ds.
Proof.
  intros Hrun Hinv.
  apply migrateDataSource_effect in Hrun as (_ & _ & Hsame & Hmove).
  unfold keep, stored. destruct (hasMigration ds).
  - by rewrite Hsame.
  - destruct (Hmove eq_refl) as (sec & js & Hdec & Hjs & Hset).
    rewrite Hdec, Hjs.
    by destruct (Set_contract _ _ _ _ _ _ _ Hinv Hset).
Qed.

Lemma forEach_store (dss : list DataSource) (w w' : World S) :
  forEach json_Marshal s dss w = (inr tt, w') ->
  kv_inv (secretsStore w) ->
  kv_inv (secretsStore w') /\
  kv_view (secretsStore w') =
    foldl (keep json_Marshal s) (kv_view (secretsStore w)) dss.
Proof.
  revert w. induction dss as [|d dss IH]; intros w; cbn.
  - unfold ret. intros Heq Hinv; by simplify_eq.
  - intros Hrun Hinv. apply bind_ok in Hrun as ([] & w1 & Hd & Hrest).
    destruct (migrateDataSource_store _ _ _ Hd Hinv) as [Hinv1 Hview1].
    destruct (IH _ Hrest Hinv1) as [Hinv' Hview']. by rewrite Hview', Hview1.
Qed.

Lemma foldl_keep_lookup (k : Key) (js : string) (dss : list DataSource)
    (m : gmap Key string) :
  (forall d, In d dss -> hasMigration d = false -> secretKey d = k ->
             stored json_Marshal s d = js) ->
  (m !! k = Some js \/
   exists d, In d dss /\ hasMigration d = false /\ secretKey d = k) ->
  foldl (keep json_Marshal s) m dss !! k = Some js.
Proof.
  revert m. induction dss as [|d dss IH]; intros m Hsame Hsrc; cbn.
  - destruct Hsrc as [Hm | (d & [] & _)]. exact Hm.
  - apply IH; [intros d' Hd'; apply Hsame; by right|].
    assert (hasMigration d = false -> secretKey d = k ->
            keep json_Marshal s m d !! k = Some js) as Hhere.
    { intros Hun Hk. unfold keep. rewrite Hun, Hk, lookup_insert_eq.
      f_equal. apply Hsame; [by left | done | done]. }
    destruct Hsrc as [Hm | (d0 & [-> | Hin] & Hun & Hk)].
    + left. unfold keep. destruct (hasMigration d) eqn:Hmark; [exact Hm|].
      destruct (decide (secretKey d = k)) as [Hk | Hk].
      * rewrite <- Hmark in Hhere. unfold keep in Hhere.
        rewrite Hmark in Hhere. by apply Hhere.
      * by rewrite lookup_insert_ne.
    + left. by apply Hhere.
    + right. by exists d0.
Qed.

Lemma Forall2_In_l {A B} (P : A -> B -> Prop) (l : list A) (k : list B)
    (x : A) :
  Forall2 P l k -> In x l -> exists y, In y k /\ P x y.
Proof.
  induction 1 as [|a b l k Hab _ IH]; [intros []|].
  intros [-> | Hin]; [exists b; split; [by left | done]|].
  destruct (IH Hin) as (y & ? & ?). exists y. split; [by right | done].
Qed.

(** C5.  Let [ds] be the record of tenant 7 named ["influx-1"], without
    completion marker, whose legacy secrets decrypt to
    [{"password": "p@ss"}], in a table where no other record has that
    tenant and name.  After a pass that returns without error: the
    secrets are serialized, and a read of [(7, "influx-1", "datasource")]
    that the store does not fail returns that serialized form; the row
    of the record carries the marker, as every row does; and when the
    compatibility-disable flag is enabled, a delete was issued during
    the pass for every record, marked or not, that carried a non-empty
    legacy payload, and no row carries one any more. *)
Theorem Run_migrates_influx (fuel : nat) (w w' : World S)
    (ds : DataSource) :
  kv_inv (secretsStore w) ->
  Run json_Marshal s fuel w = Some (None, w') ->
  In ds (db w) ->
  OrgId ds = 7 -> Name ds = "influx-1" ->
  JsonData ds !! "secretMigrationComplete" = None ->
  DecryptLegacySecrets_of service ds = inr {[ "password" := "p@ss" ]} ->
  (forall d, In d (db w) -> OrgId d = 7 -> Name d = "influx-1" -> d = ds) ->
  (exists js,
     json_Marshal {[ "password" := "p@ss" ]} = inr js /\
     forall v ok err st,
       Get (secretsStore w') 7 "influx-1" "datasource" = ((v, ok, err), st) ->
       err = None -> v = js /\ ok = true) /\
  (exists r, In r (db w') /\ Id r = Id ds /\ OrgId r = 7 /\
             Name r = "influx-1" /\ hasMigration r = true) /\
  Forall (fun r => hasMigration r = true) (db w') /\
  (IsEnabled (features s) FlagDisableSecretsCompatibility = true ->
   (exists issued, trace w' = trace w ++ issued /\
      forall d, In d (db w) -> SecureJsonData d <> ∅ ->
        In (EvDeleteDataSourceSecrets (mkDelete (Uid d) (OrgId d) (Id d)))
           issued) /\
   Forall (fun r => SecureJsonData r = ∅) (db w')).
Proof.
  intros Hinv Hrun Hin Horg Hname Hnone Hdec Huniq.
  assert (hasMigration ds = false) as Hun.
  { apply hasMigration_false. unfold marker. by rewrite Hnone. }
  pose proof Hrun as Hparts.
  apply Run_ok in Hparts as (w1 & w2 & Hwait & _ & Hloop & ->).
  destruct (WaitForProvisioning_frame _ _ _ _ Hwait)
    as (_ & _ & Hdb1 & Hst1 & waits & Hwaits & _).
  destruct (forEach_moves _ _ _ _ _ Hloop ds Hin Hun) as (sec & js & Hdec' & Hjs).
  rewrite Hdec in Hdec'. simplify_eq.
  apply Run_ok_effect in Hrun as (w1' & Hwait' & Htr & Hrows & Hsettled).
  assert (w1' = w1) as -> by congruence.
  split; [|split; [|split]].
  - exists js. split; [exact Hjs|]. intros v ok err st Hget ->. cbn in Hget.
    assert (kv_inv (secretsStore (listed w1))) as Hinv1
      by (cbn; by rewrite Hst1).
    destruct (forEach_store _ _ _ Hloop Hinv1) as [Hinv2 Hview2].
    destruct (Get_contract _ _ _ _ _ _ _ _ Hinv2 Hget) as (_ & _ & Hans).
    specialize (Hans eq_refl). rewrite Hview2 in Hans.
    rewrite (foldl_keep_lookup (7, "influx-1", "datasource") js) in Hans.
    + exact Hans.
    + intros d Hd _ Hk. unfold secretKey in Hk. simplify_eq.
      rewrite (Huniq d Hd) by congruence.
      unfold stored. by rewrite Hdec, Hjs.
    + right. exists ds. unfold secretKey. rewrite Horg, Hname. done.
  - cbn in Hrows |- *.
    pose proof (after_tracks s (db w) (db w) (db w)
                  (Forall2_tracks_refl (db w))) as Htracks.
    destruct (Forall2_In_l _ _ _ _ Htracks Hin)
      as (r & Hr & Hid & Horg' & _ & Hname' & _).
    exists r. rewrite Hrows. split; [exact Hr|].
    assert (In r (db (log (log w2
              (EvDebug "data source secret migration complete")) EvCommit)))
      as Hr' by (cbn; by rewrite Hrows).
    rewrite Forall_forall in Hsettled.
    destruct (Hsettled r (proj2 (list_elem_of_In _ _) Hr')) as [Hmarked _].
    repeat split; congruence.
  - eapply Forall_impl; [exact Hsettled|]. by intros r [? _].
  - intros Hflag. split.
    + rewrite Htr, Hwaits. eexists. split; [by rewrite <- app_assoc|].
      intros d Hd Hpayload.
      apply in_or_app. right. apply in_or_app. right.
      apply in_or_app. left. apply in_concat.
      exists (record_events json_Marshal s d). split; [by apply in_map|].
      unfold record_events. apply in_or_app. right.
      assert (purges s d = true) as ->; [|by left].
      unfold purges. rewrite Hflag. cbn. apply Z.ltb_lt.
      destruct (size (SecureJsonData d)) eqn:Hsize; [|lia].
      by apply map_size_empty_inv in Hsize.
    + eapply Forall_impl; [exact Hsettled|]. intros r [_ Hp]. by apply Hp.
Qed.
End MigrateStore.

(** * The theorems at the start-up of [demo] *)

Lemma ProvideService_outcome_witness :
  fst (demo.provide (fun _ => (true, None)) demo.failing_check)
  = (None, Some "plugin failed to start"%string).
Proof.
  pose proof (ProvideService_outcome unit unit unit unit unit unit
                (fun x => x) (fun _ => (true, None)) tt tt
                demo.failing_check tt) as Hthm.
  cbv zeta in Hthm. destruct Hthm as (_ & _ & _ & _ & Hfail).
  destruct (Hfail false "plugin failed to start"%string true None
                  eq_refl eq_refl) as [Habort _].
  exact (Habort (or_introl eq_refl)).
Defined.

Lemma ProvideService_cache_settings_witness :
  exists st,
    fst (fst (demo.provide (fun _ => (false, None)) demo.clean_false))
    = Some st /\
    defaultExpiration st = 5000000000 /\ cleanupInterval st = 300000000000.
Proof.
  eexists. split; [reflexivity|].
  destruct (ProvideService_cache_settings unit unit unit unit unit unit
              (fun x => x) (fun _ => (false, None)) tt tt
              demo.clean_false tt _ eq_refl) as (Httl & Hsweep & _).
  split; assumption.
Defined.

(** C7, as stated, fails: no answer of the collaborators makes
    [ProvideService] return a store that expires its entries after ten
    seconds. *)
Lemma ProvideService_cache_settings_not_supplied :
  ~ exists (isPluginErrorFatal : unit -> bool * error)
           (c : UseRemoteSecretsPluginCheck unit) st,
      fst (fst (demo.provide isPluginErrorFatal c)) = Some st /\
      defaultExpiration st = 10 * time.Second.
Proof.
  intros (f & c & st & Hst & Httl).
  apply ProvideService_decorated in Hst as [b ->]. discriminate Httl.
Qed.

Lemma Cached_read_after_mutation_witness :
  fst (Cached_Get
         (snd (Cached_Get
                 (snd (Cached_Set demo.secrets 1 "a" "x" "v1")) 1 "a" "x"))
         1 "a" "x")
  = ("v1"%string, true, None).
Proof.
  assert (coherent demo.secrets) as Hc
    by (apply (coherent_new (mkTable ∅)); exact I).
  assert (0 <= defaultExpiration demo.secrets) as Httl
    by (vm_compute; discriminate).
  destruct (Cached_read_after_mutation demo.secrets 1 "a" "x" Hc Httl)
    as (Hset & _).
  set (c1 := snd (Cached_Set demo.secrets 1 "a" "x" "v1")).
  set (c2 := snd (Cached_Get c1 1 "a" "x")).
  assert (Cached_Set demo.secrets 1 "a" "x" "v1" = (None, c1)) as H1
    by (vm_compute; reflexivity).
  assert (Cached_Get c1 1 "a" "x" = (("v1"%string, true, None), c2)) as H2
    by (vm_compute; reflexivity).
  destruct (Hset _ _ _ _ _ _ H1 H2 eq_refl) as [_ Hhit].
  by rewrite Hhit.
Defined.

Lemma Run_twice_as_once_witness :
  secretsStore (demo.left_by (demo.left_by demo.start 1) 1)
  = secretsStore (demo.left_by demo.start 1) /\
  map hasMigration (db (demo.left_by (demo.left_by demo.start 1) 1))
  = [true; true].
Proof.
  assert (Run demo.encode demo.migration 1 demo.start
          = Some (None, demo.left_by demo.start 1)) as H1
    by (vm_compute; reflexivity).
  assert (Run demo.encode demo.migration 1 (demo.left_by demo.start 1)
          = Some (None, demo.left_by (demo.left_by demo.start 1) 1)) as H2
    by (vm_compute; reflexivity).
  destruct (Run_twice_as_once demo.encode demo.migration demo.migration
              1 1 _ _ _ _ H1 H2) as (_ & Hs & _ & Hh & _).
  split; [exact Hs|]. rewrite Hh. vm_compute. reflexivity.
Defined.

(** C3, as stated, fails.  On [demo.start_broken] the pass decrypts and
    stores the secrets of the first record and then fails at the second
    one; the rollback leaves no marker behind, so the next pass decrypts
    the first record and stores its secrets once more.  A second pass is
    therefore not free of decrypts and of writes for every table. *)
Lemma Run_again_after_abort :
  (exists w1 w2 issued js,
     Run demo.encode demo.migration 1 demo.start_broken
     = Some (Some "cannot decrypt"%string, w1) /\
     Run demo.encode demo.migration 1 w1
     = Some (Some "cannot decrypt"%string, w2) /\
     map hasMigration (db w1) = [false; false] /\
     In (EvDecryptLegacySecrets demo.influx) (trace w1) /\
     In (EvSet 7 "influx-1" "datasource" js) (trace w1) /\
     trace w2 = trace w1 ++ issued /\
     In (EvDecryptLegacySecrets demo.influx) issued /\
     In (EvSet 7 "influx-1" "datasource" js) issued) /\
  ~ (forall (w w1 w2 : World (CachedKVStore Table)) (r1 r2 : error),
       Run demo.encode demo.migration 1 w = Some (r1, w1) ->
       Run demo.encode demo.migration 1 w1 = Some (r2, w2) ->
       exists evs, trace w2 = trace w1 ++ evs /\ Forall quiet evs).
Proof.
  set (w1 := demo.left_by demo.start_broken 1).
  set (w2 := demo.left_by w1 1).
  set (issued := drop (length (trace w1)) (trace w2)).
  assert (Run demo.encode demo.migration 1 demo.start_broken
          = Some (Some "cannot decrypt"%string, w1)) as H1
    by (vm_compute; reflexivity).
  assert (Run demo.encode demo.migration 1 w1
          = Some (Some "cannot decrypt"%string, w2)) as H2
    by (vm_compute; reflexivity).
  assert (trace w2 = trace w1 ++ issued) as Htr
    by (vm_compute; reflexivity).
  assert (In (EvDecryptLegacySecrets demo.influx) issued) as Hagain
    by (vm_compute; repeat ((left; reflexivity) || right)).
  split.
  - exists w1, w2, issued,
      (String.append "{"
         (String.append (demo.member ("password", "p@ss")%string) "}")).
    split; [exact H1|]. split; [exact H2|].
    split; [vm_compute; reflexivity|].
    split; [vm_compute; repeat ((left; reflexivity) || right)|].
    split; [vm_compute; repeat ((left; reflexivity) || right)|].
    split; [exact Htr|]. split; [exact Hagain|].
    vm_compute; repeat ((left; reflexivity) || right).
  - intros Hall. destruct (Hall _ _ _ _ _ H1 H2) as (evs & Hevs & Hquiet).
    rewrite Htr in Hevs. apply app_inv_head in Hevs. subst evs.
    exact (proj1 (List.Forall_forall _ _) Hquiet _ Hagain).
Qed.

Lemma Run_aborts_as_one_witness :
  exists w',
    Run demo.encode demo.migration 1 demo.start_broken
    = Some (Some "cannot decrypt"%string, w') /\
    db w' = db demo.start_broken.
Proof.
  set (w1 := match WaitForProvisioning 1 demo.start_broken with
             | Some (_, w) => w
             | None => demo.start_broken
             end).
  assert (WaitForProvisioning 1 demo.start_broken = Some (None, w1)) as Hwait
    by (vm_compute; reflexivity).
  destruct (Run_aborts_as_one demo.encode demo.migration 1 _ _ Hwait)
    as (Hback & _ & Hstep).
  set (wk := snd (forEach demo.encode demo.migration [demo.influx]
                          (listed w1))).
  assert (forEach demo.encode demo.migration [demo.influx] (listed w1)
          = (inr tt, wk)) as Hpre by (vm_compute; reflexivity).
  assert (StepFails demo.encode demo.migration demo.broken wk
                    "cannot decrypt") as Hfails
    by (apply decrypt_fails; vm_compute; reflexivity).
  destruct (Hstep [demo.influx] demo.broken [] wk "cannot decrypt"%string
                  eq_refl eq_refl Hpre Hfails) as [w' Hrun].
  exists w'. split; [exact Hrun|]. by destruct (Hback _ _ Hrun).
Defined.

Lemma Run_migrates_influx_witness :
  fst (Get (secretsStore (demo.left_by demo.start 1))
           7 "influx-1" "datasource")
  = (String.append "{"
       (String.append (demo.member ("password", "p@ss")%string) "}"),
     true, None) /\
  Forall (fun r => SecureJsonData r = ∅) (db (demo.left_by demo.start 1)).
Proof.
  assert (Run demo.encode demo.migration 1 demo.start
          = Some (None, demo.left_by demo.start 1)) as Hrun
    by (vm_compute; reflexivity).
  assert (kv_inv (secretsStore demo.start)) as Hinv
    by (apply (coherent_new (mkTable ∅)); exact I).
  assert (forall d, In d (db demo.start) -> OrgId d = 7 ->
                    Name d = "influx-1"%string -> d = demo.influx) as Huniq.
  { intros d [<- | [<- | []]] _ Hname; [reflexivity | discriminate Hname]. }
  destruct (Run_migrates_influx demo.encode demo.migration 1 _ _ demo.influx
              Hinv Hrun (or_introl eq_refl) eq_refl eq_refl eq_refl eq_refl
              Huniq)
    as ((js & Hjs & Hread) & _ & _ & Hpurged).
  split; [|by apply Hpurged].
  destruct (Get (secretsStore (demo.left_by demo.start 1))
                7 "influx-1" "datasource") as [[[v ok] err] st] eqn:Hget.
  assert (err = None) as -> by (vm_compute in Hget; congruence).
  destruct (Hread _ _ _ _ eq_refl eq_refl) as [-> ->].
  vm_compute in Hjs. injection Hjs as <-. vm_compute. reflexivity.
Defined.


Lemma WaitForProvisioning_nil_then_transaction_witness :
  exists r w',
    Run demo.encode demo.migration 1 demo.start = Some (r, w') /\
    In EvBegin (trace w').
Proof.
  destruct (proj2 (WaitForProvisioning_nil_then_transaction
                     demo.encode demo.migration 1 demo.start))
    as (w1 & r & w' & _ & Hrun & _ & evs & Htr).
  { cbn. lia. }
  exists r, w'. split; [exact Hrun|]. rewrite Htr.
  apply in_or_app. right. by left.
Defined.

(** * Properties of the user commands *)

Section SplitProps.

Lemma Split_cons (s : string) (c : Ascii.ascii) :
  exists piece pieces, strings.Split s c = piece :: pieces.
Proof.
  destruct s as [|a s]; cbn; [by eexists _, _|].
  destruct (Ascii.eqb a c); [by eexists _, _|].
  destruct (strings.Split s c); by eexists _, _.
Qed.

Lemma Split_step (a : Ascii.ascii) (s : string) (c : Ascii.ascii)
    (piece : string) (pieces : list string) :
  Ascii.eqb a c = false ->
  strings.Split s c = piece :: pieces ->
  strings.Split (String a s) c = String a piece :: pieces.
Proof. intros Ha Hs. cbn. by rewrite Ha, Hs. Qed.

Lemma Split_length (s : string) :
  length (strings.Split s comma) = Datatypes.S (commas s).
Proof.
  induction s as [|a s IH]; [reflexivity|].
  cbn [strings.Split commas].
  destruct (Ascii.eqb a comma); cbn [length]; [by rewrite IH|].
  destruct (Split_cons s comma) as (p & ps & Hs). rewrite Hs in *.
  cbn in *. lia.
Qed.

Lemma prefix_nil (s : string) : String.prefix EmptyString s = true.
Proof. by destruct s. Qed.

Lemma prefix_cons (a : Ascii.ascii) (p s : string) :
  String.prefix (String a p) (String a s) = String.prefix p s.
Proof. cbn. by destruct (Ascii.ascii_dec a a). Qed.

(** The first piece is a prefix of the string. *)
Lemma Split_head_prefix (s : string) (c : Ascii.ascii) piece pieces :
  strings.Split s c = piece :: pieces -> String.prefix piece s = true.
Proof.
  revert piece pieces. induction s as [|a s IH]; intros piece pieces;
    cbn [strings.Split].
  - intros Heq. by simplify_eq.
  - destruct (Ascii.eqb a c).
    + intros Heq. simplify_eq. apply prefix_nil.
    + destruct (strings.Split s c) as [|p ps] eqn:Hs; intros Heq;
        simplify_eq; rewrite prefix_cons; [apply prefix_nil | by eapply IH].
Qed.

Lemma Contains_prefix (s p : string) :
  String.prefix p s = true -> strings.Contains s p = true.
Proof. intros Hp. destruct s; cbn [strings.Contains]; by rewrite Hp. Qed.

Lemma Contains_tail (a : Ascii.ascii) (s p : string) :
  strings.Contains s p = true -> strings.Contains (String a s) p = true.
Proof. intros Hp. cbn [strings.Contains]. rewrite Hp. apply orb_true_r. Qed.

(** Every piece of a string is within the string. *)
Lemma Split_Contains (s : string) (c : Ascii.ascii) (p : string) :
  In p (strings.Split s c) -> strings.Contains s p = true.
Proof.
  revert p. induction s as [|a s IH]; intros p; cbn [strings.Split].
  - intros [<- | []]. reflexivity.
  - destruct (Ascii.eqb a c) eqn:Ha.
    + intros [<- | Hin]; [apply Contains_prefix, prefix_nil|].
      by apply Contains_tail, IH.
    + destruct (strings.Split s c) as [|q qs] eqn:Hs.
      * intros [<- | []]. apply Contains_prefix. rewrite prefix_cons.
        apply prefix_nil.
      * intros [<- | Hin].
        -- apply Contains_prefix. rewrite prefix_cons.
           by eapply Split_head_prefix.
        -- apply Contains_tail, IH. by right.
Qed.

End SplitProps.
Section MergeProps.
Variable sqlStore : commands.SQLStore.

Lemma parseIds_ok (pieces : list string) (ids acc : list Z) :
  parse_to pieces ids -> commands.parseIds pieces acc = inr (acc ++ ids).
Proof.
  intros Hp. revert acc.
  induction Hp as [|p v pieces ids Hv _ IH]; intros acc; cbn.
  - by rewrite app_nil_r.
  - rewrite Hv, IH. by rewrite <- app_assoc.
Qed.

Lemma parseIds_fails (pieces : list string) (acc : list Z) (p : string)
    (e : strconv.numError) :
  In p pieces -> strconv.ParseInt p = inl e ->
  commands.parseIds pieces acc
  = inl (commands.errorString "could not parse id from string").
Proof.
  revert acc. induction pieces as [|q pieces IH]; intros acc; [intros []|].
  intros [-> | Hin] He; cbn.
  - by rewrite He.
  - destruct (strconv.ParseInt q); [done | by apply IH].
Qed.

(** X1.  [mergeUser] parses every listed id before it touches the store: when
    all the comma-separated pieces of [Ids] are decimal [int64] numerals
    it calls [MergeUser] once, with the target and the parsed ids in their
    order, and returns its answer; when one piece is none, the empty
    [Ids] included, it returns its fixed error and the store receives no
    call. *)
Theorem mergeUser_all_or_nothing (mergeIntoUser : Z)
    (cUser : commands.ConflictingUsers)
    (received : list commands.StoreCall) :
  let pieces := strings.Split (commands.Ids cUser) comma in
  let refused :=
    (Some (commands.errorString "could not parse id from string"), received) in
  (forall ids, parse_to pieces ids ->
     commands.mergeUser mergeIntoUser cUser sqlStore received
     = (commands.answer sqlStore received
          (commands.CallMergeUser mergeIntoUser ids),
        received ++ [commands.CallMergeUser mergeIntoUser ids])) /\
  (forall p e, In p pieces -> strconv.ParseInt p = inl e ->
     commands.mergeUser mergeIntoUser cUser sqlStore received = refused) /\
  (commands.Ids cUser = EmptyString ->
   commands.mergeUser mergeIntoUser cUser sqlStore received = refused).
Proof.
  cbv zeta. unfold commands.mergeUser. fold comma. split; [|split].
  - intros ids Hp. by rewrite (parseIds_ok _ _ [] Hp).
  - intros p e Hin He. by rewrite (parseIds_fails _ [] p e Hin He).
  - intros ->. reflexivity.
Qed.

Lemma accepted_nil (received : list commands.StoreCall) :
  accepted sqlStore received [].
Proof. intros before c behind Heq. by destruct before. Qed.

Lemma accepted_cons (received calls : list commands.StoreCall)
    (c : commands.StoreCall) :
  commands.answer sqlStore received c = None ->
  accepted sqlStore (received ++ [c]) calls ->
  accepted sqlStore received (c :: calls).
Proof.
  intros Hc Hrest before c' behind Heq.
  destruct before as [|b before]; cbn in Heq; injection Heq as -> ->.
  - by rewrite app_nil_r.
  - specialize (Hrest before c' behind eq_refl).
    by rewrite <- app_assoc in Hrest.
Qed.

Lemma deleteUsers_calls (pieces : list string)
    (received received' : list commands.StoreCall)
    (r : option commands.goerror) :
  commands.deleteUsers pieces sqlStore received = (r, received') ->
  exists asked,
    received' = received ++ map commands.CallDeleteUser asked /\
    parse_to (take (length asked) pieces) asked /\
    match r with
    | None =>
        length asked = length pieces /\
        accepted sqlStore received (map commands.CallDeleteUser asked)
    | Some e => stopped sqlStore received [] pieces asked e
    end.
Proof.
  revert received. induction pieces as [|p pieces IH]; intros received; cbn.
  - intros Heq; simplify_eq. exists []. cbn. rewrite app_nil_r.
    repeat split; [constructor | apply accepted_nil].
  - destruct (strconv.ParseInt p) as [ne|v] eqn:Hv.
    + intros Heq; simplify_eq. exists []. cbn. rewrite app_nil_r.
      split; [done|]. split; [constructor|]. left.
      split; [apply accepted_nil | by exists p, ne].
    + unfold commands.call.
      destruct (commands.answer sqlStore received (commands.CallDeleteUser v))
        as [err|] eqn:Hanswer.
      * intros Heq; simplify_eq. exists [v]. cbn.
        split; [done|]. split; [by repeat constructor|]. right.
        exists [], v, err. cbn. rewrite app_nil_r.
        repeat split; [apply accepted_nil | done].
      * intros Hrest. destruct (IH _ Hrest) as (asked & -> & Hp & Hend).
        exists (v :: asked). cbn. rewrite <- app_assoc.
        split; [done|]. split; [by constructor|].
        destruct r as [e|].
        -- destruct Hend as [(Hacc & q & ne & Hq & Hne & ->)
                            | (asked0 & u & err & -> & Hacc & Herr & ->)].
           ++ left. split; [by apply accepted_cons|]. by exists q, ne.
           ++ right. exists (v :: asked0), u, err. cbn in *.
              rewrite <- app_assoc in Herr.
              repeat split; [by apply accepted_cons | done].
        -- destruct Hend as [Hlen Hacc].
           split; [by rewrite Hlen | by apply accepted_cons].
Qed.

(** X2.  [deDupeSameIdentification] works through the list as it goes.
    The store receives the update of the chosen user and then one delete
    per listed id, in the order of [Ids]; what was deleted stays
    deleted.  It returns [nil] exactly at the end of the list, every
    call having been answered [nil] and every listed id deleted, the
    chosen user's own too when [Ids] lists it.  It returns an error at
    the first thing that goes wrong and issues nothing after it: the
    update failed, and no delete was issued; or the calls so far were
    answered [nil] and the next piece of [Ids] does not parse, and the
    error is the one of [ParseInt]; or the last delete issued is the
    first call that failed.  A failed call is returned wrapped. *)
Theorem deDupeSameIdentification_calls (chosenUser : Z)
    (cUser : commands.ConflictingUsers)
    (received received' : list commands.StoreCall)
    (r : option commands.goerror) :
  commands.deDupeSameIdentification chosenUser cUser sqlStore received
  = (r, received') ->
  let pieces := strings.Split (commands.Ids cUser) comma in
  let update := commands.CallUpdateUser chosenUser in
  exists asked,
    received' = received ++ update :: map commands.CallDeleteUser asked /\
    parse_to (take (length asked) pieces) asked /\
    match r with
    | None =>
        parse_to pieces asked /\
        accepted sqlStore received
                 (update :: map commands.CallDeleteUser asked) /\
        forall p, In p pieces -> strconv.ParseInt p = inr chosenUser ->
          In (commands.CallDeleteUser chosenUser) received'
    | Some e =>
        (asked = [] /\
         exists err,
           commands.answer sqlStore received update = Some err /\
           e = not_updated err) \/
        stopped sqlStore received [update] pieces asked e
    end.
Proof.
  cbv zeta. unfold commands.deDupeSameIdentification, commands.call.
  fold comma.
  destruct (commands.answer sqlStore received
              (commands.CallUpdateUser chosenUser)) as [err|] eqn:Hupdate.
  - intros Heq; simplify_eq. exists []. cbn.
    split; [done|]. split; [constructor|]. left. split; [done|].
    by exists err.
  - intros Hloop.
    destruct (deleteUsers_calls _ _ _ _ Hloop) as (asked & -> & Hp & Hend).
    exists asked. rewrite <- app_assoc. split; [done|]. split; [done|].
    destruct r as [e|].
    + right.
      destruct Hend as [(Hacc & q & ne & Hq & Hne & ->)
                       | (asked0 & u & err & -> & Hacc & Herr & ->)].
      * left. split; [by apply accepted_cons|]. by exists q, ne.
      * right. exists asked0, u, err. cbn in *.
        rewrite <- app_assoc in Herr.
        repeat split; [by apply accepted_cons | done].
    + destruct Hend as [Hlen Hacc].
      rewrite Hlen, firstn_all in Hp. split; [done|].
      split; [by apply accepted_cons|].
      intros p Hin Hchosen.
      apply in_or_app. right. right. apply in_map.
      clear -Hp Hin Hchosen. induction Hp as [|q v ps vs Hq _ IH];
        [destruct Hin|].
      destruct Hin as [-> | Hin]; [left; congruence | right; by apply IH].
Qed.
End MergeProps.

Section PromptProps.
Variable cUser : commands.ConflictingUsers.

(** X3.  A prompt returns an id exactly when the line read occurs somewhere
    within [Ids] and is a decimal [int64] numeral, whose value it then
    returns; in particular every listed id is accepted.  Both prompts
    decide alike. *)
Theorem promptToMerge_accepts (stdin : commands.Scan) (v : Z) :
  (fst (commands.promptToMerge cUser stdin) = (v, None) <->
   exists line, stdin = commands.ScanLine line /\
     strings.Contains (commands.Ids cUser) line = true /\
     strconv.ParseInt line = inr v) /\
  (forall line,
     In line (strings.Split (commands.Ids cUser) comma) ->
     strconv.ParseInt line = inr v ->
     fst (commands.promptToMerge cUser (commands.ScanLine line))
     = (v, None)) /\
  fst (commands.promptSameIdentification cUser stdin)
  = fst (commands.promptToMerge cUser stdin).
Proof.
  split; [|split; [|reflexivity]].
  - cbn. unfold commands.chooseUser. split.
    + destruct stdin as [line| |err]; try discriminate.
      destruct (strings.Contains (commands.Ids cUser) line) eqn:Hc;
        cbn; [|discriminate].
      destruct (strconv.ParseInt line) as [e|v'] eqn:Hv; [discriminate|].
      intros Heq; simplify_eq. by exists line.
    + intros (line & -> & Hc & Hv). by rewrite Hc, Hv.
  - intros line Hin Hv. cbn. unfold commands.chooseUser.
    by rewrite (Split_Contains _ _ _ Hin), Hv.
Qed.
End PromptProps.

Section PrintProps.
Variable HiYellowString : string -> string.

Lemma printFrom_within (ids emails logins : list string) (n i : nat) :
  (i + n <= length ids)%nat ->
  (i + n <= length emails)%nat ->
  (i + n <= length logins)%nat ->
  snd (commands.printFrom HiYellowString ids emails logins i n) = false /\
  length (fst (commands.printFrom HiYellowString ids emails logins i n)) = n.
Proof.
  revert i. induction n as [|n IH]; intros i Hi He Hl; [done|]. cbn.
  destruct (lookup_lt_is_Some_2 ids i) as [id ->]; [lia|].
  destruct (lookup_lt_is_Some_2 emails i) as [email ->]; [lia|].
  destruct (lookup_lt_is_Some_2 logins i) as [login ->]; [lia|].
  destruct (IH (Datatypes.S i)) as [Hs Hn]; [lia..|].
  destruct (commands.printFrom _ _ _ _ _ _) as [lines panicked].
  cbn in *. by rewrite Hn.
Qed.

Lemma printFrom_beyond (ids emails logins : list string) (n i : nat) :
  (i + n <= length ids)%nat ->
  (i <= Nat.min (length emails) (length logins) < i + n)%nat ->
  snd (commands.printFrom HiYellowString ids emails logins i n) = true /\
  length (fst (commands.printFrom HiYellowString ids emails logins i n))
  = (Nat.min (length emails) (length logins) - i)%nat.
Proof.
  revert i. induction n as [|n IH]; intros i Hi Hm; [lia|]. cbn.
  destruct (lookup_lt_is_Some_2 ids i) as [id ->]; [lia|].
  destruct (decide (i = Nat.min (length emails) (length logins))) as [Heq|Hne].
  - assert (emails !! i = None \/ logins !! i = None) as Hnone.
    { destruct (Nat.min_spec (length emails) (length logins))
        as [[_ Hmin]|[_ Hmin]]; [left|right]; apply lookup_ge_None; lia. }
    assert ((Nat.min (length emails) (length logins) - i)%nat = O) as -> by lia.
    destruct Hnone as [-> | Hl]; [done|].
    destruct (emails !! i); by rewrite ?Hl.
  - destruct (lookup_lt_is_Some_2 emails i) as [email ->]; [lia|].
    destruct (lookup_lt_is_Some_2 logins i) as [login ->]; [lia|].
    destruct (IH (Datatypes.S i)) as [Hs Hn]; [lia..|].
    destruct (commands.printFrom _ _ _ _ _ _) as [lines panicked].
    cbn in *. rewrite Hn. split; [done | lia].
Qed.

Lemma printFrom_lines (ids emails logins : list string) (n i : nat) :
  (i + n)%nat = length ids ->
  fst (commands.printFrom HiYellowString ids emails logins i n)
  = map (logged_line HiYellowString)
        (zip (drop i ids) (zip (drop i emails) (drop i logins))).
Proof.
  revert i. induction n as [|n IH]; intros i Hi.
  - rewrite (drop_ge ids) by lia. reflexivity.
  - cbn [commands.printFrom].
    destruct (lookup_lt_is_Some_2 ids i) as [id Hid]; [lia|].
    rewrite Hid, (drop_S _ _ _ Hid).
    destruct (emails !! i) as [email|] eqn:Hemail.
    + rewrite (drop_S _ _ _ Hemail).
      destruct (logins !! i) as [login|] eqn:Hlogin.
      * rewrite (drop_S _ _ _ Hlogin).
        specialize (IH (Datatypes.S i)). 
        destruct (commands.printFrom _ _ _ _ _ _) as [lines panicked].
        cbn in *. rewrite IH by lia. reflexivity.
      * apply lookup_ge_None in Hlogin. rewrite (drop_ge logins) by lia.
        reflexivity.
    + apply lookup_ge_None in Hemail. rewrite (drop_ge emails) by lia.
      reflexivity.
Qed.

(** X4.  [Print] writes a newline to standard output and then logs, for
    the ids in the order of [Ids], the line that the format makes of the
    id and of the email and the login at the same index, coloured; it
    needs an email and a login for each id.  With [k] commas in [Ids]
    and at least as many in the emails and in the logins these are
    [k + 1] lines, and [Print] returns; with fewer commas in either, [m]
    being the smaller count, they are [m + 1] lines, and [Print] then
    panics on the missing index. *)
Theorem Print_bounds (c : commands.ConflictingUsers) :
  let ids := strings.Split (commands.Ids c) comma in
  let emails := strings.Split (commands.ConflictEmails c) comma in
  let logins := strings.Split (commands.ConflictLogins c) comma in
  let k := commas (commands.Ids c) in
  let m := Nat.min (commas (commands.ConflictEmails c))
                   (commas (commands.ConflictLogins c)) in
  fst (commands.Print HiYellowString c)
  = commands.Stdout commands.newline
    :: map (logged_line HiYellowString) (zip ids (zip emails logins)) /\
  ((k <= m)%nat ->
   snd (commands.Print HiYellowString c) = false /\
   length (fst (commands.Print HiYellowString c)) = (2 + k)%nat) /\
  ((m < k)%nat ->
   snd (commands.Print HiYellowString c) = true /\
   length (fst (commands.Print HiYellowString c)) = (2 + m)%nat).
Proof.
  cbv zeta. unfold commands.Print. fold comma.
  pose proof (Split_length (commands.Ids c)) as Hi.
  pose proof (Split_length (commands.ConflictEmails c)) as He.
  pose proof (Split_length (commands.ConflictLogins c)) as Hl.
  split; [|split; intros Hk].
  - pose proof (printFrom_lines
                  (strings.Split (commands.Ids c) comma)
                  (strings.Split (commands.ConflictEmails c) comma)
                  (strings.Split (commands.ConflictLogins c) comma)
                  (length (strings.Split (commands.Ids c) comma)) 0 eq_refl)
      as Hlines.
    destruct (commands.printFrom _ _ _ _ _ _) as [lines panicked].
    cbn in *. by rewrite Hlines.
  - destruct (printFrom_within
                (strings.Split (commands.Ids c) comma)
                (strings.Split (commands.ConflictEmails c) comma)
                (strings.Split (commands.ConflictLogins c) comma)
                (length (strings.Split (commands.Ids c) comma)) 0)
      as [Hs Hn]; [lia..|].
    destruct (commands.printFrom _ _ _ _ _ _) as [lines panicked].
    cbn in *. split; [done | lia].
  - destruct (printFrom_beyond
                (strings.Split (commands.Ids c) comma)
                (strings.Split (commands.ConflictEmails c) comma)
                (strings.Split (commands.ConflictLogins c) comma)
                (length (strings.Split (commands.Ids c) comma)) 0)
      as [Hs Hn]; [lia..|].
    destruct (commands.printFrom _ _ _ _ _ _) as [lines panicked].
    cbn in *. split; [done | lia].
Qed.
End PrintProps.

Section Numerals.

Lemma of_uint_acc_ge (d : Decimal.uint) (acc : positive) :
  (acc <= Pos.of_uint_acc d acc)%positive.
Proof.
  revert acc. induction d; intros acc; cbn [Pos.of_uint_acc];
    [lia | etransitivity; [|apply IHd]; lia ..].
Qed.

Ltac digit_step :=
  match goal with
  | |- context [strconv.digit ?c] =>
      let d := eval vm_compute in (strconv.digit c) in
      change (strconv.digit c) with d
  end;
  cbv beta iota zeta.

Lemma parseDigits_acc (d : Decimal.uint) (acc : positive) :
  Z.pos (Pos.of_uint_acc d acc) <= strconv.maxUint64 ->
  strconv.parseDigits (DecimalString.NilEmpty.string_of_uint d) (Z.pos acc)
  = inr (Z.pos (Pos.of_uint_acc d acc)).
Proof.
  revert acc.
  induction d; intros acc Hb;
    cbn [DecimalString.NilEmpty.string_of_uint strconv.parseDigits
         Pos.of_uint_acc] in *;
    [reflexivity | digit_step ..].
  all: match goal with
       | Hb : Z.pos (Pos.of_uint_acc _ ?acc') <= _ |- _ =>
           pose proof (of_uint_acc_ge d acc') as Hge;
           replace (Z.pos acc * 10 + _) with (Z.pos acc')
             by lia
       end.
  all: match goal with
       | |- context [strconv.maxUint64 <? ?n] =>
           destruct (Z.ltb_spec strconv.maxUint64 n); [lia|]
       end.
  all: by apply IHd.
Qed.

Lemma parseDigits_zero (d : Decimal.uint) :
  Z.of_N (Pos.of_uint d) <= strconv.maxUint64 ->
  strconv.parseDigits (DecimalString.NilEmpty.string_of_uint d) 0
  = inr (Z.of_N (Pos.of_uint d)).
Proof.
  induction d; intros Hb;
    cbn [DecimalString.NilEmpty.string_of_uint strconv.parseDigits
         Pos.of_uint] in *;
    [reflexivity | digit_step ..].
  - cbn. by apply IHd.
  - apply (parseDigits_acc d 1). exact Hb.
  - apply (parseDigits_acc d 2). exact Hb.
  - apply (parseDigits_acc d 3). exact Hb.
  - apply (parseDigits_acc d 4). exact Hb.
  - apply (parseDigits_acc d 5). exact Hb.
  - apply (parseDigits_acc d 6). exact Hb.
  - apply (parseDigits_acc d 7). exact Hb.
  - apply (parseDigits_acc d 8). exact Hb.
  - apply (parseDigits_acc d 9). exact Hb.
Qed.

Lemma ParseInt_digits (d : Decimal.uint) :
  d <> Decimal.Nil ->
  strconv.ParseInt (DecimalString.NilEmpty.string_of_uint d)
  = match strconv.parseDigits
            (DecimalString.NilEmpty.string_of_uint d) 0 with
    | inl e => inl e
    | inr un =>
        if 9223372036854775808 <=? un then inl strconv.ErrRange else inr un
    end.
Proof.
  destruct d; [done | intros _ ..];
    cbn [DecimalString.NilEmpty.string_of_uint].
  all: unfold strconv.ParseInt, strconv.sign, strconv.ParseUint.
  all: match goal with
       | |- context [Ascii.eqb ?c (Ascii.ascii_of_nat 43)] =>
           change (Ascii.eqb c (Ascii.ascii_of_nat 43)) with false;
           change (Ascii.eqb c (Ascii.ascii_of_nat 45)) with false
       end.
  all: cbv beta iota zeta.
  all: destruct (strconv.parseDigits _ 0) as [e|un]; [done|].
  all: cbn [negb andb]; by destruct (_ <=? un).
Qed.

Lemma ParseUint_digits (d : Decimal.uint) :
  d <> Decimal.Nil ->
  strconv.ParseUint (DecimalString.NilEmpty.string_of_uint d)
  = strconv.parseDigits (DecimalString.NilEmpty.string_of_uint d) 0.
Proof. by destruct d. Qed.

Lemma NilZero_digits (p : positive) :
  DecimalString.NilZero.string_of_uint (Pos.to_uint p)
  = DecimalString.NilEmpty.string_of_uint (Pos.to_uint p).
Proof.
  pose proof (DecimalPos.Unsigned.to_uint_nonnil p) as Hnil.
  by destruct (Pos.to_uint p).
Qed.

(** Parsing the numeral of an [int64] gives the number back. *)
Lemma ParseInt_numeral (z : Z) :
  int64 z -> strconv.ParseInt (numeral z) = inr z.
Proof.
  unfold int64, numeral. intros Hz. destruct z as [|p|p].
  - reflexivity.
  - cbn [Z.to_int DecimalString.NilZero.string_of_int].
    rewrite NilZero_digits, ParseInt_digits
      by apply DecimalPos.Unsigned.to_uint_nonnil.
    rewrite parseDigits_zero; rewrite DecimalPos.Unsigned.of_to;
      [|unfold strconv.maxUint64; lia].
    cbn [Z.of_N]. destruct (Z.leb_spec 9223372036854775808 (Z.pos p));
      [lia | done].
  - cbn [Z.to_int DecimalString.NilZero.string_of_int].
    rewrite NilZero_digits.
    unfold strconv.ParseInt, strconv.sign.
    match goal with
    | |- context [Ascii.eqb ?c (Ascii.ascii_of_nat 43)] =>
        change (Ascii.eqb c (Ascii.ascii_of_nat 43)) with false;
        change (Ascii.eqb c (Ascii.ascii_of_nat 45)) with true
    end.
    cbv beta iota zeta.
    rewrite ParseUint_digits by apply DecimalPos.Unsigned.to_uint_nonnil.
    rewrite parseDigits_zero; rewrite DecimalPos.Unsigned.of_to;
      [|unfold strconv.maxUint64; lia].
    cbn [Z.of_N negb andb].
    destruct (Z.ltb_spec 9223372036854775808 (Z.pos p)); [lia | done].
Qed.

Lemma digits_commas (d : Decimal.uint) :
  commas (DecimalString.NilEmpty.string_of_uint d) = O.
Proof. induction d; cbn [DecimalString.NilEmpty.string_of_uint commas]; done. Qed.

Lemma numeral_commas (z : Z) : commas (numeral z) = O.
Proof.
  unfold numeral. destruct z as [|p|p];
    cbn [Z.to_int DecimalString.NilZero.string_of_int]; [done | |].
  - rewrite NilZero_digits. apply digits_commas.
  - rewrite NilZero_digits. cbn [commas]. apply digits_commas.
Qed.

Lemma Split_free (p : string) :
  commas p = O -> strings.Split p comma = [p].
Proof.
  induction p as [|a p IH]; [done|]. cbn [commas strings.Split].
  destruct (Ascii.eqb a comma); [discriminate|].
  intros Hp. by rewrite (IH Hp).
Qed.

Lemma Split_app_comma (p rest : string) :
  commas p = O ->
  strings.Split (String.append p (String comma rest)) comma
  = p :: strings.Split rest comma.
Proof.
  induction p as [|a p IH]; [reflexivity|].
  intros Hp.
  change (strings.Split (String.append (String a p) (String comma rest)) comma)
    with (if Ascii.eqb a comma
          then EmptyString
               :: strings.Split (String.append p (String comma rest)) comma
          else match strings.Split (String.append p (String comma rest)) comma with
               | piece :: pieces => String a piece :: pieces
               | [] => [String a EmptyString]
               end).
  cbn [commas] in Hp.
  destruct (Ascii.eqb a comma); [discriminate|].
  by rewrite (IH Hp).
Qed.

Lemma Split_concat (pieces : list string) :
  pieces <> [] ->
  Forall (fun p => commas p = O) pieces ->
  strings.Split (String.concat "," pieces) comma = pieces.
Proof.
  intros Hne Hfree. induction Hfree as [|p pieces Hp Hrest IH]; [done|].
  destruct pieces as [|q pieces]; [by apply Split_free|].
  change (String.concat "," (p :: q :: pieces))
    with (String.append p (String comma (String.concat "," (q :: pieces)))).
  rewrite (Split_app_comma _ _ Hp). f_equal. by apply IH.
Qed.

Lemma numerals_parse (ids : list Z) :
  Forall int64 ids -> parse_to (map numeral ids) ids.
Proof.
  induction 1 as [|z ids Hz _ IH]; cbn; constructor;
    [by apply ParseInt_numeral | exact IH].
Qed.
End Numerals.

(** X5.  When [Ids] is the comma-separated list of the decimal numerals of
    [int64] ids, at least one, [mergeUser] hands exactly these ids, in
    this order, to [MergeUser]. *)
Theorem mergeUser_numerals (sqlStore : commands.SQLStore)
    (mergeIntoUser : Z) (cUser : commands.ConflictingUsers)
    (received : list commands.StoreCall) (ids : list Z) :
  ids <> [] ->
  Forall int64 ids ->
  commands.Ids cUser = String.concat "," (map numeral ids) ->
  commands.mergeUser mergeIntoUser cUser sqlStore received
  = (commands.answer sqlStore received
       (commands.CallMergeUser mergeIntoUser ids),
     received ++ [commands.CallMergeUser mergeIntoUser ids]).
Proof.
  intros Hne Hids HIds. unfold commands.mergeUser. fold comma.
  rewrite HIds, Split_concat.
  - by rewrite (parseIds_ok _ _ [] (numerals_parse _ Hids)).
  - by destruct ids.
  - clear. induction ids; constructor; [apply numeral_commas | done].
Qed.

(** * Further properties of the fixed-scope view *)

Section FixedSequences.
Import kvstore.
Context {S : Type} `{SecretsKVStore S}.

Lemma perform_once (kv : FixedKVStore (Recorder S)) (op : Op) :
  OrgId (perform kv op) = OrgId kv /\
  Typ (perform kv op) = Typ kv /\
  In (Namespace (perform kv op)) (Namespace kv :: targets [op]) /\
  exists c,
    calls (kvStore (perform kv op)) = calls (kvStore kv) ++ [c] /\
    call_scope c = (OrgId kv, Typ kv) /\
    call_namespace c = Namespace kv.
Proof.
  destruct kv as [[st log] o n t].
  destruct op as [|value| | |newNamespace]; cbn.
  1-4: repeat split; [by left | eexists; repeat split].
  unfold Fixed_Rename; cbn.
  destruct (Rename st o n t newNamespace) as [[e|] st']; cbn.
  - repeat split; [by left | eexists; repeat split].
  - repeat split; [right; by left | eexists; repeat split].
Qed.

Lemma targets_cons (op : Op) (ops : list Op) :
  targets (op :: ops) = targets [op] ++ targets ops.
Proof. destruct op; reflexivity. Qed.

(** X6.  Whatever operations a view goes through, and whatever the wrapped
    store answers, the organisation and the type it was built with stay:
    the store receives one call per operation, each on that organisation
    and type, and on a namespace that is the initial one or one an
    earlier [Rename] asked for. *)
Theorem FixedKVStore_scope_is_kept (kv : FixedKVStore (Recorder S))
    (ops : list Op) :
  let kv' := performAll kv ops in
  OrgId kv' = OrgId kv /\
  Typ kv' = Typ kv /\
  In (Namespace kv') (Namespace kv :: targets ops) /\
  exists issued,
    calls (kvStore kv') = calls (kvStore kv) ++ issued /\
    length issued = length ops /\
    Forall (fun c => call_scope c = (OrgId kv, Typ kv) /\
                     In (call_namespace c) (Namespace kv :: targets ops))
           issued.
Proof.
  cbv zeta. revert kv. induction ops as [|op ops IH]; intros kv.
  - cbn. repeat split; [by left|]. exists []. by rewrite app_nil_r.
  - unfold performAll. cbn [foldl]. fold (performAll (perform kv op) ops).
    destruct (perform_once kv op) as (Ho & Ht & Hn & c & Hc & Hsc & Hnc).
    destruct (IH (perform kv op)) as (Ho' & Ht' & Hn' & issued & Hi & Hl & Hall).
    assert (forall x, In x (Namespace (perform kv op) :: targets ops) ->
                      In x (Namespace kv :: targets (op :: ops))) as Hsub.
    { intros x [<- | Hx]; rewrite targets_cons.
      - destruct Hn as [<- | Hn]; [by left | right].
        apply in_or_app. by left.
      - right. apply in_or_app. by right. }
    split; [congruence|]. split; [congruence|]. split; [by apply Hsub|].
    exists (c :: issued). split; [by rewrite Hi, Hc, <- app_assoc|].
    split; [cbn; by rewrite Hl|].
    constructor.
    + split; [done|]. rewrite Hnc. by left.
    + eapply Forall_impl; [exact Hall|]. intros c' [Hs' Hn''].
      split; [congruence | by apply Hsub].
Qed.
End FixedSequences.

Section FixedContract.
Import kvstore.
Context {S : Type} `{KVContract S}.

(** X7.  Over a store that keeps its records as a backend must (one record
    per triple, written by [Set], removed by [Del], moved by [Rename],
    left alone by a failed call), a view reads its own record: after a
    [Set] it reads the value set, after a [Del] it finds nothing, and a
    view that addressed a record reads that record after [Rename]
    whether the rename succeeded, the view then following the record to
    the new namespace, or failed. *)
Theorem FixedKVStore_reads_its_record (kv : FixedKVStore S) :
  kv_inv (kvStore kv) ->
  (forall value kv1 r kv2,
     Fixed_Set kv value = (None, kv1) ->
     Fixed_Get kv1 = (r, kv2) -> snd r = None ->
     r = (value, true, None)) /\
  (forall kv1 r kv2,
     Fixed_Del kv = (None, kv1) ->
     Fixed_Get kv1 = (r, kv2) -> snd r = None ->
     snd (fst r) = false) /\
  (forall newNamespace x err kv1 r kv2,
     kv_view (kvStore kv) !! (OrgId kv, Namespace kv, Typ kv) = Some x ->
     Fixed_Rename kv newNamespace = (err, kv1) ->
     Fixed_Get kv1 = (r, kv2) -> snd r = None ->
     r = (x, true, None)).
Proof.
  destruct kv as [st o n t]; cbn. intros Hinv. split; [|split].
  - intros value kv1 [[v ok] err] kv2. unfold Fixed_Set, Fixed_Get; cbn.
    destruct (Set_ st o n t value) as [e st1] eqn:Hset.
    intros Heq; simplify_eq; cbn.
    destruct (Get st1 o n t) as [[[v' ok'] err'] st2] eqn:Hget.
    intros Heq Herr; simplify_eq; cbn in *. subst.
    destruct (Set_contract _ _ _ _ _ _ _ Hinv Hset) as [Hinv1 Hview1].
    destruct (Get_contract _ _ _ _ _ _ _ _ Hinv1 Hget) as (_ & _ & Hans).
    specialize (Hans eq_refl). rewrite Hview1, lookup_insert_eq in Hans.
    by destruct Hans as [-> ->].
  - intros kv1 [[v ok] err] kv2. unfold Fixed_Del, Fixed_Get; cbn.
    destruct (Del st o n t) as [e st1] eqn:Hdel.
    intros Heq; simplify_eq; cbn.
    destruct (Get st1 o n t) as [[[v' ok'] err'] st2] eqn:Hget.
    intros Heq Herr; simplify_eq; cbn in *. subst.
    destruct (Del_contract _ _ _ _ _ _ Hinv Hdel) as [Hinv1 Hview1].
    destruct (Get_contract _ _ _ _ _ _ _ _ Hinv1 Hget) as (_ & _ & Hans).
    specialize (Hans eq_refl). by rewrite Hview1, lookup_delete_eq in Hans.
  - intros n' x err kv1 [[v ok] e] kv2 Hx. unfold Fixed_Rename, Fixed_Get; cbn.
    destruct (Rename st o n t n') as [[e1|] st1] eqn:Hren;
      intros Heq; simplify_eq; cbn.
    + destruct (Get st1 o n t) as [[[v' ok'] err'] st2] eqn:Hget.
      intros Heq Herr; simplify_eq; cbn in *. subst.
      destruct (Rename_contract _ _ _ _ _ _ _ Hinv Hren) as [Hinv1 Hview1].
      destruct (Get_contract _ _ _ _ _ _ _ _ Hinv1 Hget) as (_ & _ & Hans).
      specialize (Hans eq_refl). rewrite Hview1, Hx in Hans.
      by destruct Hans as [-> ->].
    + destruct (Get st1 o n' t) as [[[v' ok'] err'] st2] eqn:Hget.
      intros Heq Herr; simplify_eq; cbn in *. subst.
      destruct (Rename_contract _ _ _ _ _ _ _ Hinv Hren) as [Hinv1 Hview1].
      destruct (Get_contract _ _ _ _ _ _ _ _ Hinv1 Hget) as (_ & _ & Hans).
      specialize (Hans eq_refl).
      rewrite Hview1 in Hans. unfold rename_record in Hans.
      rewrite Hx, lookup_insert_eq in Hans.
      by destruct Hans as [-> ->].
Qed.
End FixedContract.

(** * Further properties of the backend selector *)

Section SelectorOrigin.
Import kvstore.
Variables SqlStore SecretsService Plugin InfraKV NamespacedKVStore
          cachedDecrypted : Type.
Variable GetNamespacedKVStore : InfraKV -> NamespacedKVStore.

Local Abbreviation ProvideWith :=
  (ProvideService SqlStore SecretsService Plugin InfraKV NamespacedKVStore
                  cachedDecrypted GetNamespacedKVStore).

Ltac by_cases remoteCheck kv f :=
  unfold ProvideService;
  destruct (ShouldUseRemoteSecretsPlugin Plugin remoteCheck)
    as [usePlugin [e|]] eqn:Hcheck;
    [ destruct (f (GetNamespacedKVStore kv))
        as [isFatal [e2|]] eqn:Hfatal; destruct isFatal
    | destruct usePlugin;
      [ destruct (GetPlugin Plugin remoteCheck) as [p [e|]] eqn:Hplugin | ] ];
    cbn.

(** X8.  Where the result of [ProvideService] comes from.  A store it returns
    has an empty cache and comes without error.  When the store wraps the
    plugin backend, the capability check said [true] without error and
    the plugin is the one [GetPlugin] returned without error; when it
    wraps the SQL backend, that backend holds the SQL store and the
    secrets service passed in and an empty decryption cache.  An error it
    returns comes without store and is the error of the classification
    lookup, or else the error of the capability check, classified
    fatal. *)
Theorem ProvideService_origin
    (isPluginErrorFatal : NamespacedKVStore -> bool * error)
    (sqlStore : SqlStore) (secretsService : SecretsService)
    (remoteCheck : UseRemoteSecretsPluginCheck Plugin) (kv : InfraKV) :
  let r := fst (ProvideWith isPluginErrorFatal sqlStore secretsService
                            remoteCheck kv) in
  let check := ShouldUseRemoteSecretsPlugin Plugin remoteCheck in
  let class := isPluginErrorFatal (GetNamespacedKVStore kv) in
  (forall st, fst r = Some st ->
     snd r = None /\ cache st = ∅ /\
     match store st with
     | secretsKVStorePlugin _ _ _ _ p ss =>
         check = (true, None) /\
         GetPlugin Plugin remoteCheck = (p, None) /\
         ss = secretsService
     | secretsKVStoreSQL _ _ _ _ sq ss dc =>
         sq = sqlStore /\ ss = secretsService /\ dc = ∅ /\
         (check = (true, None) -> snd (GetPlugin Plugin remoteCheck) <> None)
     end) /\
  (forall e, snd r = Some e ->
     fst r = None /\
     exists e1, snd check = Some e1 /\
       (snd class = Some e \/
        (snd class = None /\ fst class = true /\ e = e1))).
Proof.
  cbv zeta. by_cases remoteCheck kv isPluginErrorFatal.
  all: split; [intros st Hst | intros e' He'].
  all: simplify_eq; cbn.
  all: try (repeat split; [done..|]).
  all: try (repeat split; done).
  all: try (intros Heq; discriminate Heq).
  all: eexists; (split; [reflexivity|]); ((by left) || (by right)).
Qed.

(** X9.  What [ProvideService] logs.  The line that announces the exit is
    logged exactly when no store is returned; the line that announces
    the default SQL backend exactly when the capability check said
    [false] without error; nothing at all is logged exactly when the
    capability check failed and the store is returned all the same, so
    that this fallback to SQL is silent.  No start-up logs more than two
    lines. *)
Theorem ProvideService_log
    (isPluginErrorFatal : NamespacedKVStore -> bool * error)
    (sqlStore : SqlStore) (secretsService : SecretsService)
    (remoteCheck : UseRemoteSecretsPluginCheck Plugin) (kv : InfraKV) :
  let r := ProvideWith isPluginErrorFatal sqlStore secretsService
                       remoteCheck kv in
  let check := ShouldUseRemoteSecretsPlugin Plugin remoteCheck in
  (In (Error "secrets management plugin is required to start -- exiting app")
      (snd r) <-> fst (fst r) = None) /\
  (In (Debug "secrets kvstore is using the default (SQL) implementation for secrets management")
      (snd r) <-> check = (false, None)) /\
  (snd r = [] <-> snd check <> None /\ fst (fst r) <> None) /\
  (length (snd r) <= 2)%nat.
Proof.
  cbv zeta. by_cases remoteCheck kv isPluginErrorFatal.
  all: repeat split; try done; try lia; try (intros Heq; discriminate Heq).
  all: try (intros [Heq | Hin]; [discriminate Heq | try done]).
  all: try (by left).
  all: try (intros [Hno _]; by destruct Hno).
  all: try (intros [_ Hno]; by destruct Hno).
  all: try (destruct Hin as [Heq | []]; discriminate Heq).
Qed.

(** X10.  What [ProvideService] does not look at.  When the capability check
    returned without error, the classification of plugin errors and the
    infrastructure kv store it is read from are not consulted; unless
    the check said [true] without error, the plugin is not asked for. *)
Theorem ProvideService_consults_on_need
    (fatal1 fatal2 : NamespacedKVStore -> bool * error)
    (sqlStore : SqlStore) (secretsService : SecretsService)
    (check1 check2 : UseRemoteSecretsPluginCheck Plugin)
    (kv1 kv2 : InfraKV) :
  (snd (ShouldUseRemoteSecretsPlugin Plugin check1) = None ->
   ProvideWith fatal1 sqlStore secretsService check1 kv1
   = ProvideWith fatal2 sqlStore secretsService check1 kv2) /\
  (ShouldUseRemoteSecretsPlugin Plugin check1
   = ShouldUseRemoteSecretsPlugin Plugin check2 ->
   ShouldUseRemoteSecretsPlugin Plugin check1 <> (true, None) ->
   ProvideWith fatal1 sqlStore secretsService check1 kv1
   = ProvideWith fatal1 sqlStore secretsService check2 kv1).
Proof.
  split.
  - unfold ProvideService.
    destruct (ShouldUseRemoteSecretsPlugin Plugin check1) as [b [e|]];
      [intros Heq; discriminate Heq | reflexivity].
  - unfold ProvideService. intros <-.
    destruct (ShouldUseRemoteSecretsPlugin Plugin check1) as [[] [e|]];
      try reflexivity.
    intros Hno. by destruct Hno.
Qed.
End SelectorOrigin.

(** * Further properties of the await-provisioning phase *)

Section WaitRounds.
Context {S : Type}.


End WaitRounds.

(** * Further properties of the migrate pass *)

Section RunIssues.
Context {S : Type} `{SecretsKVStore S}.
Variable json_Marshal : gmap string string -> string + string.
Variable s : DataSourceSecretMigrationService.

Local Abbreviation service := (dataSourcesService s).

(** However the loop body ends, what it issued is an initial segment of
    the calls of [attempt], and all of them when it ends without
    error. *)
Lemma migrateDataSource_issued (ds : DataSource) (w : World S) r w' :
  migrateDataSource json_Marshal s ds w = (r, w') ->
  exists evs rest,
    trace w' = trace w ++ evs /\
    attempt json_Marshal s ds = evs ++ rest /\
    (r = inr tt -> rest = []).
Proof.
  unfold migrateDataSource, DecryptLegacySecrets, secretsStore_Set,
    UpdateDataSource, DeleteDataSourceSecrets, bind, emit, lift, check, ret,
    attempt, purge_events, purges.
  destruct (hasMigration ds); cbn.
  - destruct (IsEnabled _ _ && _); cbn.
    + destruct (DeleteDataSourceSecrets_fails _ _); cbn;
        intros Heq; simplify_eq; cbn;
        eexists _, []; (split; [reflexivity|]); by rewrite ?app_nil_r.
    + intros Heq; simplify_eq. exists [], []. by rewrite app_nil_r.
  - destruct (DecryptLegacySecrets_of _ ds) as [e|sec]; cbn.
    { intros Heq; simplify_eq; cbn. eexists _, []. by split. }
    destruct (json_Marshal sec) as [e|js]; cbn.
    { intros Heq; simplify_eq; cbn. eexists _, []. by split. }
    destruct (Set_ (secretsStore w) _ _ _ js) as [[e|] st]; cbn.
    { intros Heq; simplify_eq; cbn. rewrite <- app_assoc. cbn.
      eexists _, _. split; [reflexivity|]. split; [reflexivity | done]. }
    destruct (UpdateDataSource_fails _ _) as [e|]; cbn.
    { intros Heq; simplify_eq; cbn. rewrite <- !app_assoc. cbn.
      eexists _, _. split; [reflexivity|]. split; [reflexivity | done]. }
    destruct (IsEnabled _ _ && _); cbn.
    + destruct (DeleteDataSourceSecrets_fails _ _); cbn;
        intros Heq; simplify_eq; cbn; rewrite <- !app_assoc; cbn;
        eexists _, []; (split; [reflexivity|]); by rewrite ?app_nil_r.
    + intros Heq; simplify_eq; cbn. rewrite <- !app_assoc. cbn.
      eexists _, []. split; [reflexivity|]. by rewrite ?app_nil_r.
Qed.

Lemma forEach_issued (dss : list DataSource) (w : World S) r w' :
  forEach json_Marshal s dss w = (r, w') ->
  exists evs rest,
    trace w' = trace w ++ evs /\
    plan json_Marshal s dss = evs ++ rest /\
    (r = inr tt -> rest = []).
Proof.
  revert w. induction dss as [|ds dss IH]; intros w; cbn.
  - unfold ret. intros Heq; simplify_eq. exists [], [].
    by rewrite app_nil_r.
  - unfold bind at 1.
    destruct (migrateDataSource json_Marshal s ds w) as [[e|[]] w1] eqn:Hds;
      destruct (migrateDataSource_issued _ _ _ _ Hds)
        as (evs1 & rest1 & Htr1 & Hplan1 & Hall1).
    + intros Heq; simplify_eq.
      exists evs1, (rest1 ++ plan json_Marshal s dss).
      split; [done|]. unfold plan in *. cbn.
      split; [by rewrite Hplan1, <- app_assoc | done].
    + intros Hrest. destruct (IH _ Hrest) as (evs & rest & Htr & Hplan & Hall).
      rewrite (Hall1 eq_refl), app_nil_r in Hplan1.
      exists (evs1 ++ evs), rest. unfold plan in *. cbn.
      split; [by rewrite Htr, Htr1, <- app_assoc|].
      split; [by rewrite Hplan1, Hplan, <- app_assoc | done].
Qed.

(** What a run issued between the wait and its return. *)
Lemma Run_issued (fuel : nat) (w : World S) r w' :
  Run json_Marshal s fuel w = Some (r, w') ->
  exists w1 evs rest,
    WaitForProvisioning fuel w = Some (None, w1) /\
    plan json_Marshal s (db w) = evs ++ rest /\
    trace w' = trace w1 ++ [EvBegin; EvGetDataSources] ++
      match GetDataSources_fails service with
      | Some _ => []
      | None => EvDebug "starting data source secret migration" :: evs
      end ++ ending r /\
    match GetDataSources_fails service with
    | Some e => r = Some e
    | None => r = None -> rest = []
    end.
Proof.
  unfold Run.
  destruct (WaitForProvisioning fuel w) as [[r1 w1]|] eqn:Hwait;
    [|discriminate].
  destruct (WaitForProvisioning_frame _ _ _ _ Hwait) as (-> & _ & Hdb & _).
  intros Heq. simplify_eq. exists w1.
  unfold InTransaction in *.
  destruct (GetDataSources_fails service) as [e|] eqn:Hlist.
  - revert Heq. unfold migrate, GetDataSources, bind, emit, check.
    rewrite Hlist. intros Heq; simplify_eq.
    exists [], (plan json_Marshal s (db w)). cbn.
    repeat split. by rewrite <- !app_assoc.
  - rewrite (migrate_listed _ _ _ Hlist) in Heq. unfold bind at 1 in Heq.
    rewrite Hdb in Heq.
    destruct (forEach json_Marshal s (db w) (listed w1)) as [[e|[]] w2]
      eqn:Hloop;
      destruct (forEach_issued _ _ _ _ Hloop)
        as (evs & rest & Htr & Hplan & Hall).
    + simplify_eq. exists evs, rest. split; [done|]. split; [done|].
      split; [|done]. cbn in *. rewrite Htr.
      repeat (rewrite <- app_assoc || rewrite <- app_comm_cons). done.
    + unfold emit in Heq. simplify_eq. exists evs, rest.
      split; [done|]. split; [done|]. split; [|by intros _; apply Hall].
      cbn in *. rewrite Htr.
      repeat (rewrite <- app_assoc || rewrite <- app_comm_cons). done.
Qed.

(** X12.  However [Run] ends, what it issued after the wait is: the begin of
    the transaction, the listing, and, when the listing succeeds, the
    first debug line and an initial segment of the calls that the listed
    records ask for in their order (per record not yet marked the
    decrypt, then the [Set], then the update; per record with a legacy
    payload, when the flag is enabled, the delete); then either the
    closing debug line and the commit, the segment being all of these
    calls, or the rollback.  An error of the listing is returned as it
    is. *)
Theorem Run_issues_initial_segment (fuel : nat) (w : World S) (r : error)
    (w' : World S) :
  Run json_Marshal s fuel w = Some (r, w') ->
  exists w1 evs rest,
    WaitForProvisioning fuel w = Some (None, w1) /\
    plan json_Marshal s (db w) = evs ++ rest /\
    trace w' = trace w1 ++ [EvBegin; EvGetDataSources] ++
      match GetDataSources_fails service with
      | Some _ => []
      | None => EvDebug "starting data source secret migration" :: evs
      end ++
      match r with
      | None => [EvDebug "data source secret migration complete"; EvCommit]
      | Some _ => [EvRollback]
      end /\
    (forall e, GetDataSources_fails service = Some e -> r = Some e) /\
    (r = None -> GetDataSources_fails service = None /\ rest = []).
Proof.
  intros Hrun.
  destruct (Run_issued _ _ _ _ Hrun) as (w1 & evs & rest & Hw & Hp & Htr & Hr).
  exists w1, evs, rest. do 3 (split; [done|]).
  destruct (GetDataSources_fails service) as [e|].
  - split; [intros e' He'; by simplify_eq | by subst r].
  - split; [done | by split; [|apply Hr]].
Qed.
End RunIssues.

Section RunGuards.
Context {S : Type} `{SecretsKVStore S}.
Variable json_Marshal : gmap string string -> string + string.
Variable s : DataSourceSecretMigrationService.

Local Abbreviation service := (dataSourcesService s).

Lemma app_split_at {X} (l1 l2 pre post : list X) (x : X) :
  l1 ++ l2 = pre ++ x :: post ->
  (exists l, l1 = pre ++ x :: l /\ post = l ++ l2) \/
  (exists l, pre = l1 ++ l /\ l2 = l ++ x :: post).
Proof.
  revert pre. induction l1 as [|a l1 IH]; intros pre; cbn.
  - intros ->. right. by exists pre.
  - destruct pre as [|p pre]; cbn; intros Heq; injection Heq as -> Heq.
    + left. by exists l1.
    + destruct (IH _ Heq) as [(l & -> & ->) | (l & -> & ->)];
        [left | right]; by exists l.
Qed.

Lemma split_middle {X} (P : X -> Prop) (front mid back pre post : list X)
    (x : X) :
  Forall P front -> Forall P back -> ~ P x ->
  front ++ mid ++ back = pre ++ x :: post ->
  exists pre2 post2, pre = front ++ pre2 /\ mid = pre2 ++ x :: post2.
Proof.
  intros Hf Hb Hx Heq.
  apply app_split_at in Heq as [(l & -> & _) | (l & -> & Heq)].
  - apply Forall_app in Hf as [_ Hf]. by inversion Hf.
  - apply app_split_at in Heq as [(l' & -> & _) | (l' & _ & ->)].
    + by exists l, l'.
    + apply Forall_app in Hb as [_ Hb]. by inversion Hb.
Qed.

Lemma purges_true (ds : DataSource) :
  purges s ds = true ->
  IsEnabled (features s) FlagDisableSecretsCompatibility = true /\
  SecureJsonData ds <> ∅.
Proof.
  unfold purges. intros Hp. apply andb_true_iff in Hp as [Hflag Hsize].
  split; [done|]. intros Hempty. rewrite Hempty, map_size_empty in Hsize.
  discriminate Hsize.
Qed.

Lemma attempt_delete (ds : DataSource) cmd :
  In (EvDeleteDataSourceSecrets cmd) (attempt json_Marshal s ds) ->
  purges s ds = true /\ cmd = deleteCommand ds.
Proof.
  unfold attempt, purge_events.
  destruct (hasMigration ds);
    [|destruct (DecryptLegacySecrets_of service ds) as [e|sec];
      [|destruct (json_Marshal sec) as [e|js]]];
    destruct (purges s ds); cbn; intros Hin;
    repeat (destruct Hin as [Heq | Hin]; [by simplify_eq|]);
    by destruct Hin.
Qed.

Lemma plan_delete (dss : list DataSource) cmd :
  In (EvDeleteDataSourceSecrets cmd) (plan json_Marshal s dss) ->
  exists ds, In ds dss /\ purges s ds = true /\ cmd = deleteCommand ds.
Proof.
  unfold plan. intros Hin. apply in_concat in Hin as (evs & Hevs & Hin).
  apply in_map_iff in Hevs as (ds & <- & Hds).
  exists ds. split; [done|]. by apply attempt_delete.
Qed.

Lemma attempt_update (ds : DataSource) pre cmd post :
  attempt json_Marshal s ds = pre ++ EvUpdateDataSource cmd :: post ->
  exists sec js,
    hasMigration ds = false /\
    DecryptLegacySecrets_of service ds = inr sec /\
    json_Marshal sec = inr js /\
    cmd = updateCommand ds /\
    pre = [EvDecryptLegacySecrets ds;
           EvSet (OrgId ds) (Name ds) dataSourceSecretType js].
Proof.
  unfold attempt, purge_events.
  destruct (hasMigration ds);
    [|destruct (DecryptLegacySecrets_of service ds) as [e|sec] eqn:Hdec;
      [|destruct (json_Marshal sec) as [e|js] eqn:Hjs]];
    destruct (purges s ds); cbn.
  all: destruct pre as [|e1 [|e2 [|e3 [|e4 [|e5 pre]]]]]; cbn;
    intros Heq; try discriminate Heq.
  all: try (injection Heq as Heq; discriminate Heq).
  all: try (injection Heq as _ Heq; discriminate Heq).
  all: try (injection Heq as _ _ Heq; discriminate Heq).
  all: try (injection Heq as _ _ _ Heq; discriminate Heq).
  all: try (injection Heq as _ _ _ _ Heq; discriminate Heq).
  all: injection Heq as <- <- <- _; by exists sec, js.
Qed.

Lemma plan_update (dss : list DataSource) pre cmd post :
  plan json_Marshal s dss = pre ++ EvUpdateDataSource cmd :: post ->
  exists ds sec js pre',
    In ds dss /\ hasMigration ds = false /\
    DecryptLegacySecrets_of service ds = inr sec /\
    json_Marshal sec = inr js /\
    cmd = updateCommand ds /\
    pre = pre' ++ [EvDecryptLegacySecrets ds;
                   EvSet (OrgId ds) (Name ds) dataSourceSecretType js].
Proof.
  revert pre. induction dss as [|d dss IH]; intros pre; unfold plan; cbn.
  - destruct pre; intros Heq; discriminate Heq.
  - fold (plan json_Marshal s dss). intros Heq.
    apply app_split_at in Heq as [(l & Hatt & _) | (l & -> & Heq)].
    + apply attempt_update in Hatt as (sec & js & ? & ? & ? & ? & ->).
      exists d, sec, js, []. repeat split; try done. by left.
    + apply IH in Heq as (ds & sec & js & pre' & ? & ? & ? & ? & ? & ->).
      exists ds, sec, js, (attempt json_Marshal s d ++ pre').
      repeat split; try done; [by right | by rewrite app_assoc].
Qed.

(** X13.  However [Run] ends, it asks for the deletion of legacy secrets only
    with the compatibility-disable flag enabled, and only for a listed
    record that carries a legacy payload, with the identifiers of that
    record: with the flag disabled no delete is ever issued. *)
Theorem Run_deletes_only_flagged (fuel : nat) (w : World S) (r : error)
    (w' : World S) :
  Run json_Marshal s fuel w = Some (r, w') ->
  exists issued,
    trace w' = trace w ++ issued /\
    forall cmd, In (EvDeleteDataSourceSecrets cmd) issued ->
      IsEnabled (features s) FlagDisableSecretsCompatibility = true /\
      exists ds, In ds (db w) /\ SecureJsonData ds <> ∅ /\
                 cmd = mkDelete (Uid ds) (OrgId ds) (Id ds).
Proof.
  intros Hrun.
  destruct (Run_issued _ _ _ _ _ _ Hrun)
    as (w1 & evs & rest & Hwait & Hplan & Htr & _).
  destruct (WaitForProvisioning_frame _ _ _ _ Hwait)
    as (_ & _ & _ & _ & waits & Hwaits & Hwaiting).
  eexists. split; [rewrite Htr, Hwaits, <- app_assoc; reflexivity|].
  intros cmd Hin.
  assert (In (EvDeleteDataSourceSecrets cmd) evs) as Hevs.
  { apply in_app_or in Hin as [Hin | Hin].
    { rewrite Forall_forall in Hwaiting.
      by destruct (Hwaiting _ (proj2 (list_elem_of_In _ _) Hin)). }
    cbn in Hin. destruct Hin as [Heq | [Heq | Hin]]; [discriminate Heq..|].
    apply in_app_or in Hin as [Hin | Hin].
    - destruct (GetDataSources_fails service); [by destruct Hin|].
      destruct Hin as [Heq | Hin]; [discriminate Heq | done].
    - destruct r; cbn in Hin;
        repeat (destruct Hin as [Heq | Hin]; [discriminate Heq|]);
        by destruct Hin. }
  assert (In (EvDeleteDataSourceSecrets cmd) (plan json_Marshal s (db w)))
    as Hin' by (rewrite Hplan; apply in_or_app; by left).
  apply plan_delete in Hin' as (ds & Hds & Hp & ->).
  apply purges_true in Hp as [Hflag Hpayload].
  split; [done|]. by exists ds.
Qed.

(** X14.  However [Run] ends, it never marks a record before it stored its
    secrets: every update it issues sets the marker of a listed record
    that was not marked, and the two calls issued right before it are
    the decryption of that record's legacy secrets and the [Set] of
    their serialized form under the record's organisation and name and
    the type ["datasource"]. *)
Theorem Run_marks_after_Set (fuel : nat) (w : World S) (r : error)
    (w' : World S) :
  Run json_Marshal s fuel w = Some (r, w') ->
  exists issued,
    trace w' = trace w ++ issued /\
    forall pre cmd post,
      issued = pre ++ EvUpdateDataSource cmd :: post ->
      exists ds sec js pre',
        In ds (db w) /\ hasMigration ds = false /\
        DecryptLegacySecrets_of service ds = inr sec /\
        json_Marshal sec = inr js /\
        cmd = mkUpdate (Id ds) (OrgId ds) (Uid ds)
                (<["secretMigrationComplete" := JBool true]> (JsonData ds)) /\
        pre = pre' ++ [EvDecryptLegacySecrets ds;
                       EvSet (OrgId ds) (Name ds) "datasource" js].
Proof.
  intros Hrun.
  destruct (Run_issued _ _ _ _ _ _ Hrun)
    as (w1 & evs & rest & Hwait & Hplan & Htr & _).
  destruct (WaitForProvisioning_frame _ _ _ _ Hwait)
    as (_ & _ & _ & _ & waits & Hwaits & Hwaiting).
  set (other := fun e : Event =>
                  match e with EvUpdateDataSource _ => False | _ => True end).
  assert (Forall other waits) as Hother.
  { eapply Forall_impl; [exact Hwaiting|]. by intros []. }
  assert (Forall other (ending r)) as Hending
    by (destruct r; by repeat constructor).
  destruct (GetDataSources_fails service) as [e|].
  - exists (waits ++ [EvBegin; EvGetDataSources] ++ ending r).
    split; [rewrite Htr, Hwaits, <- app_assoc; reflexivity|].
    intros pre cmd post Heq. exfalso.
    assert (Forall other (waits ++ [EvBegin; EvGetDataSources] ++ ending r))
      as Hall.
    { apply Forall_app. split; [done|]. apply Forall_app. split; [|done].
      by repeat constructor. }
    rewrite Heq in Hall. apply Forall_app in Hall as [_ Hall].
    by inversion Hall.
  - exists ((waits ++ [EvBegin; EvGetDataSources;
                       EvDebug "starting data source secret migration"])
            ++ evs ++ ending r).
    split.
    { rewrite Htr, Hwaits.
      repeat (rewrite <- app_assoc || rewrite <- app_comm_cons). done. }
    intros pre cmd post Heq.
    apply (split_middle other) in Heq as (pre2 & post2 & -> & Hevs);
      [| apply Forall_app; split; [done | by repeat constructor]
       | done | by intros Hno ].
    rewrite Hevs, <- app_assoc in Hplan. cbn in Hplan.
    apply plan_update in Hplan
      as (ds & sec & js & pre' & ? & ? & ? & ? & ? & ->).
    exists ds, sec, js,
      ((waits ++ [EvBegin; EvGetDataSources;
                  EvDebug "starting data source secret migration"]) ++ pre').
    repeat split; try done. by rewrite <- !app_assoc.
Qed.

Lemma forEach_idle (dss : list DataSource) (w : World S) :
  Forall (fun ds => hasMigration ds = true /\ purges s ds = false) dss ->
  forEach json_Marshal s dss w = (inr tt, w).
Proof.
  induction 1 as [|ds dss [Hm Hp] _ IH]; [reflexivity|].
  cbn. rewrite migrateDataSource_halves. unfold purgeLegacy.
  rewrite Hm, Hp. unfold bind, ret. cbn. exact IH.
Qed.

(** X15.  When nothing is left to do, the table being empty or holding only
    marked records of which none is to be purged, a run whose listing
    succeeds returns [nil] and has issued, after the wait, the begin,
    the listing, the two debug lines and the commit, and nothing else;
    the table and the secrets store are as they were. *)
Theorem Run_nothing_to_do (fuel : nat) (w w1 : World S) :
  Forall (fun ds => hasMigration ds = true /\ purges s ds = false) (db w) ->
  GetDataSources_fails service = None ->
  WaitForProvisioning fuel w = Some (None, w1) ->
  Run json_Marshal s fuel w
  = Some (None,
          mkWorld (now w1) (pending w1) (listeners w1) (db w)
                  (secretsStore w)
                  (trace w1 ++
                   [EvBegin; EvGetDataSources;
                    EvDebug "starting data source secret migration";
                    EvDebug "data source secret migration complete";
                    EvCommit])).
Proof.
  intros Hidle Hlist Hwait.
  destruct (WaitForProvisioning_frame _ _ _ _ Hwait) as (_ & _ & Hdb & Hst & _).
  unfold Run. rewrite Hwait. unfold InTransaction.
  rewrite (migrate_listed _ _ _ Hlist). unfold bind at 1.
  rewrite Hdb, (forEach_idle _ _ Hidle). unfold emit. cbn.
  unfold log, listed. cbn. rewrite Hdb, Hst.
  repeat (rewrite <- app_assoc || rewrite <- app_comm_cons). done.
Qed.
End RunGuards.

Section RunStoreCalls.
Context {S : Type} `{SecretsKVStore S}.
Variable json_Marshal : gmap string string -> string + string.
Variable s : DataSourceSecretMigrationService.

Local Abbreviation service := (dataSourcesService s).

Lemma migrateDataSource_calls (ds : DataSource) (w : World (Recorder S))
    r w' :
  migrateDataSource json_Marshal s ds w = (r, w') ->
  exists done rest,
    (if unmarked ds then [ds] else []) = done ++ rest /\
    calls (secretsStore w')
    = calls (secretsStore w) ++ map (setCall json_Marshal s) done /\
    (r = inr tt -> rest = []).
Proof.
  unfold migrateDataSource, DecryptLegacySecrets, secretsStore_Set,
    UpdateDataSource, DeleteDataSourceSecrets, bind, emit, lift, check, ret,
    unmarked.
  assert (forall sec js,
            DecryptLegacySecrets_of service ds = inr sec ->
            json_Marshal sec = inr js ->
            setCall json_Marshal s ds
            = CallSet (OrgId ds) (Name ds) dataSourceSecretType js) as Hcall.
  { intros sec js Hdec Hjs. unfold setCall, stored. by rewrite Hdec, Hjs. }
  destruct (hasMigration ds); cbn.
  - destruct (IsEnabled _ _ && _); cbn;
      [destruct (DeleteDataSourceSecrets_fails _ _); cbn|];
      intros Heq; simplify_eq; cbn; exists [], [];
      repeat split; cbn; rewrite ?app_nil_r; done.
  - destruct (DecryptLegacySecrets_of _ ds) as [e|sec] eqn:Hdec; cbn.
    { intros Heq; simplify_eq; cbn. exists [], [ds].
      repeat split; cbn; rewrite ?app_nil_r; done. }
    destruct (json_Marshal sec) as [e|js] eqn:Hjs; cbn.
    { intros Heq; simplify_eq; cbn. exists [], [ds].
      repeat split; cbn; rewrite ?app_nil_r; done. }
    specialize (Hcall sec js eq_refl Hjs).
    destruct (Set_ (inner (secretsStore w)) _ _ _ js) as [[e|] st]; cbn.
    { intros Heq; simplify_eq; cbn. exists [ds], [].
      repeat split; cbn; by rewrite ?Hcall. }
    destruct (UpdateDataSource_fails _ _) as [e|]; cbn.
    { intros Heq; simplify_eq; cbn. exists [ds], [].
      repeat split; cbn; by rewrite ?Hcall. }
    destruct (IsEnabled _ _ && _); cbn;
      [destruct (DeleteDataSourceSecrets_fails _ _); cbn|];
      intros Heq; simplify_eq; cbn; exists [ds], [];
      repeat split; cbn; by rewrite ?Hcall.
Qed.

Lemma forEach_calls (dss : list DataSource) (w : World (Recorder S)) r w' :
  forEach json_Marshal s dss w = (r, w') ->
  exists done rest,
    List.filter unmarked dss = done ++ rest /\
    calls (secretsStore w')
    = calls (secretsStore w) ++ map (setCall json_Marshal s) done /\
    (r = inr tt -> rest = []).
Proof.
  revert w. induction dss as [|ds dss IH]; intros w; cbn.
  - unfold ret. intros Heq; simplify_eq. exists [], [].
    repeat split; cbn; by rewrite ?app_nil_r.
  - unfold bind at 1.
    assert (List.filter unmarked (ds :: dss)
            = (if unmarked ds then [ds] else []) ++ List.filter unmarked dss)
      as Hfilter by (cbn; by destruct (unmarked ds)).
    cbn in Hfilter. rewrite Hfilter.
    destruct (migrateDataSource json_Marshal s ds w) as [[e|[]] w1] eqn:Hds;
      destruct (migrateDataSource_calls _ _ _ _ Hds)
        as (done1 & rest1 & Hsplit1 & Hcalls1 & Hall1).
    + intros Heq; simplify_eq.
      exists done1, (rest1 ++ List.filter unmarked dss).
      split; [by rewrite Hsplit1, <- app_assoc | done].
    + intros Hrest.
      destruct (IH _ Hrest) as (done & rest & Hsplit & Hcalls & Hall).
      rewrite (Hall1 eq_refl), app_nil_r in Hsplit1.
      exists (done1 ++ done), rest.
      split; [by rewrite Hsplit1, Hsplit, <- app_assoc|].
      split; [|done].
      by rewrite Hcalls, Hcalls1, map_app, <- app_assoc.
Qed.

End RunStoreCalls.

(** * The steps of a record without marker *)

Section UnmarkedRecords.
Context {S : Type} `{SecretsKVStore S}.
Variable json_Marshal : gmap string string -> string + string.
Variable s : DataSourceSecretMigrationService.

Local Abbreviation service := (dataSourcesService s).

(** What the loop body did to the store and to the table when it
    returned without error for a record without marker. *)
Lemma migrateDataSource_moves (ds : DataSource) (w w' : World S) :
  hasMigration ds = false ->
  migrateDataSource json_Marshal s ds w = (inr tt, w') ->
  exists sec js,
    DecryptLegacySecrets_of service ds = inr sec /\
    json_Marshal sec = inr js /\
    Set_ (secretsStore w) (OrgId ds) (Name ds) dataSourceSecretType js
      = (None, secretsStore w') /\
    UpdateDataSource_fails service (updateCommand ds) = None /\
    db w' = if purges s ds
            then clear_rows (deleteCommand ds)
                            (update_rows (updateCommand ds) (db w))
            else update_rows (updateCommand ds) (db w).
Proof.
  intros Hun. rewrite migrateDataSource_halves, Hun. unfold negb.
  intros Hrun. apply bind_ok in Hrun as ([] & w1 & Hmove & Hpurge).
  apply moveSecrets_ok in Hmove as (sec & js & st & Hdec & Hjs & Hset & Hupd & ->).
  apply purgeLegacy_ok in Hpurge.
  exists sec, js. do 2 (split; [done|]).
  destruct (purges s ds); [destruct Hpurge as [_ ->] | subst w']; by cbn.
Qed.

(** A pass that returned without error over a store that records its
    calls: the store received the [Set] of every listed record without
    marker. *)
Lemma Run_stores (fuel : nat) (w w' : World (Recorder S))
    (ds : DataSource) (sec : gmap string string) (js : string) :
  Run json_Marshal s fuel w = Some (None, w') ->
  In ds (db w) -> hasMigration ds = false ->
  DecryptLegacySecrets_of service ds = inr sec ->
  json_Marshal sec = inr js ->
  In (CallSet (OrgId ds) (Name ds) dataSourceSecretType js)
     (calls (secretsStore w')).
Proof.
  intros Hrun Hin Hun Hdec Hjs.
  apply Run_ok in Hrun as (w1 & w2 & _ & _ & Hloop & ->).
  destruct (forEach_calls _ _ _ _ _ _ Hloop)
    as (done & rest & Hsplit & Hcalls & Hall).
  rewrite (Hall eq_refl), app_nil_r in Hsplit.
  assert (setCall json_Marshal s ds
          = CallSet (OrgId ds) (Name ds) dataSourceSecretType js) as <-.
  { unfold setCall, stored. by rewrite Hdec, Hjs. }
  change (In (setCall json_Marshal s ds) (calls (secretsStore w2))).
  rewrite Hcalls. apply in_or_app. right. apply in_map. rewrite <- Hsplit. apply filter_In.
  split; [exact Hin|]. unfold unmarked. by rewrite Hun.
Qed.

(** C9.  A record whose settings hold no boolean [true] under
    ["secretMigrationComplete"] is taken as not migrated, whatever the
    conversion reported; the conversion reports an error when the entry
    is absent or not a boolean.  Wherever the loop reaches the record,
    the first thing it does is to ask for the decryption of its legacy
    secrets; when the loop body returns without error for it, the
    secrets were decrypted and serialized, the secrets store is in the
    state in which its [Set] of the serialized secrets, called under the
    organisation and the name of the record and the type
    ["datasource"], left it, and the update that sets the marker went
    through and changed the table.  In a pass that returns without
    error the decrypt, the [Set] and the update that sets the marker
    are issued for the record, in this order, and every row of the
    table ends up marked; a store that records its calls has received
    that [Set]. *)
Theorem unmarked_record_is_migrated (ds : DataSource) :
  JsonData ds !! "secretMigrationComplete" <> Some (JBool true) ->
  hasMigration ds = false /\
  ((forall b, JsonData ds !! "secretMigrationComplete" <> Some (JBool b)) ->
   snd (simplejson.Bool
          (simplejson.Get (JsonData ds) "secretMigrationComplete"))
     <> None) /\
  (forall w : World S, exists evs,
     trace (snd (migrateDataSource json_Marshal s ds w))
     = trace w ++ EvDecryptLegacySecrets ds :: evs) /\
  (forall w w' : World S,
     migrateDataSource json_Marshal s ds w = (inr tt, w') ->
     exists sec js,
       DecryptLegacySecrets_of service ds = inr sec /\
       json_Marshal sec = inr js /\
       Set_ (secretsStore w) (OrgId ds) (Name ds) "datasource" js
         = (None, secretsStore w') /\
       UpdateDataSource_fails service (updateCommand ds) = None /\
       db w' = if purges s ds
               then clear_rows (deleteCommand ds)
                               (update_rows (updateCommand ds) (db w))
               else update_rows (updateCommand ds) (db w)) /\
  (forall (fuel : nat) (w w' : World S),
     Run json_Marshal s fuel w = Some (None, w') ->
     In ds (db w) ->
     Forall (fun r => hasMigration r = true) (db w') /\
     exists sec js before behind,
       DecryptLegacySecrets_of service ds = inr sec /\
       json_Marshal sec = inr js /\
       trace w' =
         trace w ++ before ++
         [EvDecryptLegacySecrets ds;
          EvSet (OrgId ds) (Name ds) "datasource" js;
          EvUpdateDataSource
            (mkUpdate (Id ds) (OrgId ds) (Uid ds)
               (<["secretMigrationComplete" := JBool true]> (JsonData ds)))]
         ++ behind) /\
  (forall (fuel : nat) (w w' : World (Recorder S)),
     Run json_Marshal s fuel w = Some (None, w') ->
     In ds (db w) ->
     exists sec js,
       DecryptLegacySecrets_of service ds = inr sec /\
       json_Marshal sec = inr js /\
       In (CallSet (OrgId ds) (Name ds) "datasource" js)
          (calls (secretsStore w'))).
Proof.
  intros Hentry.
  assert (hasMigration ds = false) as Hun by by apply hasMigration_false.
  split; [exact Hun|]. split; [|split; [|split; [|split]]].
  { intros Hnot. unfold simplejson.Get, simplejson.Bool.
    destruct (JsonData ds !! "secretMigrationComplete") as [[|b| |]|];
      cbn; try done. by destruct (Hnot b). }
  { intros w. by apply migrateDataSource_decrypts_first. }
  { intros w w' Hstep. by apply migrateDataSource_moves. }
  { intros fuel w w' Hrun Hin.
    pose proof Hrun as Hparts.
    apply Run_ok in Hparts as (w1 & w2 & Hwait & _ & Hloop & _).
    destruct (forEach_moves _ _ _ _ _ Hloop ds Hin Hun)
      as (sec & js & Hdec & Hjs).
    apply Run_ok_effect in Hrun as (w1' & Hwait' & Htr & _ & Hsettled).
    assert (w1' = w1) as -> by congruence.
    split.
    { eapply Forall_impl; [exact Hsettled|]. by intros r [? _]. }
    destruct (WaitForProvisioning_frame _ _ _ _ Hwait)
      as (_ & _ & _ & _ & waits & Hwaits & _).
    apply in_split in Hin as (l1 & l2 & Hsplit).
    exists sec, js.
    exists (waits ++
            [EvBegin; EvGetDataSources;
             EvDebug "starting data source secret migration"] ++
            concat (map (record_events json_Marshal s) l1)).
    exists ((if purges s ds
             then [EvDeleteDataSourceSecrets (deleteCommand ds)] else []) ++
            concat (map (record_events json_Marshal s) l2) ++
            [EvDebug "data source secret migration complete"; EvCommit]).
    split; [done|]. split; [done|].
    rewrite Htr, Hwaits, Hsplit, map_app, concat_app. cbn.
    unfold record_events at 2. rewrite Hun. unfold move_events.
    rewrite Hdec, Hjs. cbn.
    repeat (rewrite <- app_assoc || rewrite <- app_comm_cons).
    reflexivity. }
  intros fuel w w' Hrun Hin.
  pose proof Hrun as Hparts.
  apply Run_ok in Hparts as (w1 & w2 & _ & _ & Hloop & _).
  destruct (forEach_moves _ _ _ _ _ Hloop ds Hin Hun)
    as (sec & js & Hdec & Hjs).
  exists sec, js. do 2 (split; [done|]).
  by eapply Run_stores.
Qed.
End UnmarkedRecords.

(** * The further theorems on concrete inputs *)

Lemma mergeUser_all_or_nothing_witness :
  commands.mergeUser 1 pair_of_users willing []
  = (None, [commands.CallMergeUser 1 [1; 2]]).
Proof.
  pose proof (mergeUser_all_or_nothing willing 1 pair_of_users []) as Hthm.
  cbv zeta in Hthm. destruct Hthm as (Hparsed & _).
  apply (Hparsed [1; 2]). repeat constructor.
Defined.

Lemma deDupeSameIdentification_calls_witness :
  In (commands.CallDeleteUser 2)
     (snd (commands.deDupeSameIdentification 2 pair_of_users willing [])).
Proof.
  set (received :=
         snd (commands.deDupeSameIdentification 2 pair_of_users willing [])).
  assert (commands.deDupeSameIdentification 2 pair_of_users willing []
          = (None, received)) as Hrun by (vm_compute; reflexivity).
  pose proof (deDupeSameIdentification_calls willing 2 pair_of_users []
                received None Hrun) as Hthm.
  cbv zeta in Hthm. destruct Hthm as (asked & _ & _ & _ & _ & Hchosen).
  apply (Hchosen "2"%string); [right; left; reflexivity | reflexivity].
Defined.

Lemma promptToMerge_accepts_witness :
  fst (commands.promptToMerge pair_of_users (commands.ScanLine "2"))
  = (2, None).
Proof.
  destruct (promptToMerge_accepts pair_of_users (commands.ScanLine "2") 2)
    as (_ & Hlisted & _).
  apply Hlisted; [right; left; reflexivity | reflexivity].
Defined.

Lemma Print_bounds_witness :
  (fst (commands.Print plain pair_of_users)
   = [commands.Stdout commands.newline;
      commands.Logged (commands.conflictLine "1" "a@x.org" "admin");
      commands.Logged (commands.conflictLine "2" "A@x.org" "Admin")] /\
   snd (commands.Print plain pair_of_users) = false) /\
  snd (commands.Print plain
         (commands.mkConflictingUsers "1,2" "admin" "a@x.org" "admin,Admin"
                                      false))
  = true.
Proof.
  pose proof (Print_bounds plain pair_of_users) as Hfits.
  pose proof (Print_bounds plain
                (commands.mkConflictingUsers "1,2" "admin" "a@x.org"
                                             "admin,Admin" false)) as Hshort.
  cbv zeta in Hfits, Hshort.
  destruct Hfits as (Hlines & Hfits & _). destruct Hshort as (_ & _ & Hshort).
  split; [split|].
  - exact Hlines.
  - apply Hfits. vm_compute. lia.
  - apply Hshort. vm_compute. lia.
Defined.

Lemma mergeUser_numerals_witness :
  commands.mergeUser 7 three_users willing []
  = (None, [commands.CallMergeUser 7 [7; -3; 42]]).
Proof.
  apply (mergeUser_numerals willing 7 three_users [] [7; -3; 42]).
  - discriminate.
  - repeat constructor; unfold int64; lia.
  - reflexivity.
Defined.

Lemma FixedKVStore_reads_its_record_witness :
  fst (Fixed_Get (snd (Fixed_Rename one_record "b")))
  = ("v"%string, true, None).
Proof.
  set (kv1 := snd (Fixed_Rename one_record "b")).
  set (r := fst (Fixed_Get kv1)).
  set (kv2 := snd (Fixed_Get kv1)).
  assert (kv_inv (kvStore one_record)) as Hinv by exact I.
  destruct (FixedKVStore_reads_its_record one_record Hinv)
    as (_ & _ & Hrename).
  apply (Hrename "b"%string "v"%string None kv1 r kv2); reflexivity.
Defined.

Lemma ProvideService_origin_witness :
  exists st,
    fst (fst (demo.provide (fun _ => (false, None)) demo.clean_false))
    = Some st /\
    cache st = ∅.
Proof.
  eexists. split; [reflexivity|].
  pose proof (ProvideService_origin unit unit unit unit unit unit
                (fun x => x) (fun _ => (false, None)) tt tt
                demo.clean_false tt) as Hthm.
  cbv zeta in Hthm. destruct Hthm as [Hstore _].
  by destruct (Hstore _ eq_refl) as (_ & Hcache & _).
Defined.

Lemma ProvideService_consults_on_need_witness :
  demo.provide (fun _ => (true, None)) demo.clean_false
  = demo.provide (fun _ => (false, Some "no classification"%string))
                 demo.clean_false.
Proof.
  apply (proj1 (ProvideService_consults_on_need unit unit unit unit unit unit
                  (fun x => x) (fun _ => (true, None))
                  (fun _ => (false, Some "no classification"%string))
                  tt tt demo.clean_false demo.clean_false tt tt)).
  reflexivity.
Defined.


Lemma Run_issues_initial_segment_witness :
  exists w1 evs rest,
    WaitForProvisioning 1 demo.start_broken = Some (None, w1) /\
    plan demo.encode demo.migration (db demo.start_broken) = evs ++ rest /\
    trace (demo.left_by demo.start_broken 1)
    = trace w1 ++ [EvBegin; EvGetDataSources] ++
      (EvDebug "starting data source secret migration" :: evs) ++
      [EvRollback].
Proof.
  assert (Run demo.encode demo.migration 1 demo.start_broken
          = Some (Some "cannot decrypt"%string,
                  demo.left_by demo.start_broken 1)) as Hrun
    by (vm_compute; reflexivity).
  destruct (Run_issues_initial_segment _ _ _ _ _ _ Hrun)
    as (w1 & evs & rest & Hwait & Hplan & Htr & _).
  exists w1, evs, rest. split; [exact Hwait|]. split; [exact Hplan|].
  exact Htr.
Defined.

Lemma Run_deletes_only_flagged_witness :
  exists ds,
    In ds (db demo.start) /\ SecureJsonData ds <> ∅ /\
    mkDelete "uid-graphite" 7 2 = mkDelete (Uid ds) (OrgId ds) (Id ds).
Proof.
  assert (Run demo.encode demo.migration 1 demo.start
          = Some (None, demo.left_by demo.start 1)) as Hrun
    by (vm_compute; reflexivity).
  destruct (Run_deletes_only_flagged _ _ _ _ _ _ Hrun)
    as (issued & Htr & Hall).
  apply (Hall (mkDelete "uid-graphite" 7 2)).
  change (trace demo.start ++ issued) with issued in Htr. rewrite <- Htr.
  vm_compute. repeat ((left; reflexivity) || right).
Defined.

Lemma Run_marks_after_Set_witness :
  exists ds js,
    In ds (db demo.start) /\ hasMigration ds = false /\
    exists pre',
      take 7 (trace (demo.left_by demo.start 1))
      = pre' ++ [EvDecryptLegacySecrets ds;
                 EvSet (OrgId ds) (Name ds) "datasource" js].
Proof.
  assert (Run demo.encode demo.migration 1 demo.start
          = Some (None, demo.left_by demo.start 1)) as Hrun
    by (vm_compute; reflexivity).
  destruct (Run_marks_after_Set _ _ _ _ _ _ Hrun) as (issued & Htr & Hall).
  change (trace demo.start ++ issued) with issued in Htr.
  destruct (Hall (take 7 issued) (updateCommand demo.influx)
                 (drop 8 issued))
    as (ds & sec & js & pre' & Hin & Hun & _ & _ & _ & Hpre).
  { rewrite <- Htr. vm_compute. reflexivity. }
  exists ds, js. split; [exact Hin|]. split; [exact Hun|].
  exists pre'. rewrite Htr. exact Hpre.
Defined.

Lemma Run_nothing_to_do_witness :
  exists w',
    Run demo.encode demo.migration 1 done_before = Some (None, w') /\
    db w' = db done_before /\ secretsStore w' = secretsStore done_before.
Proof.
  set (w1 := match WaitForProvisioning 1 done_before with
             | Some (_, w) => w
             | None => done_before
             end).
  eexists. split.
  - apply (Run_nothing_to_do demo.encode demo.migration 1 done_before w1).
    + repeat constructor.
    + reflexivity.
    + vm_compute. reflexivity.
  - split; reflexivity.
Defined.


Lemma unmarked_record_is_migrated_witness :
  hasMigration demo.influx = false /\
  exists w' js,
    Run demo.encode demo.migration 1 recording = Some (None, w') /\
    In (CallSet 7 "influx-1" "datasource" js) (calls (secretsStore w')).
Proof.
  set (w' := match Run demo.encode demo.migration 1 recording with
             | Some (_, w') => w'
             | None => recording
             end).
  assert (Run demo.encode demo.migration 1 recording = Some (None, w'))
    as Hrun by (vm_compute; reflexivity).
  destruct (unmarked_record_is_migrated (S := Table)
              demo.encode demo.migration demo.influx)
    as (Hun & _ & _ & _ & _ & Hstore).
  { vm_compute. discriminate. }
  destruct (Hstore 1%nat recording w' Hrun (or_introl eq_refl))
    as (sec & js & _ & _ & Hin).
  split; [exact Hun|]. exists w', js. split; [exact Hrun | exact Hin].
Defined.
